(** * AdEx validator stack: validator-worker helpers and the channel routes

    A shallow embedding of [services/validatorWorker/lib/index.js] (state
    root, fee distribution, string/big-number maps, rejection record) and of
    the channel routes ([retrieveLastApproved], [postValidatorMessages]),
    with the properties the specification states about them.

    Conventions.
    - A JavaScript object used as a map is its list of own properties in
      enumeration order ([Obj.t]); a well-formed object has no repeated key.
      [Obj.set] defines an own property, as an object literal and a spread
      do: it updates a key in place and appends a new key, which is what
      JavaScript does for keys that are not array indices.  [Obj.assign] is
      the assignment [o[k] = v], which differs for the key [__proto__].
      Every object the code builds receives its keys in the enumeration
      order of an object it was given, so the order of the model is the
      order of the program.
    - A [BN] of bn.js is an integer of [Z]; its operations are the ones of
      bn.js 4.11 ([div] truncates toward zero and asserts a non-zero
      divisor).
    - A function that may throw returns a [result]. *)

From Stdlib Require Import ZArith NArith String Ascii List Bool Lia.
From Stdlib Require Import Permutation Sorted.
From Stdlib.Strings Require Import Byte.
From Stdlib Require Import DecimalString DecimalPos DecimalN DecimalZ.
Import ListNotations.

Local Open Scope string_scope.
Local Open Scope list_scope.
Local Open Scope Z_scope.

(** ** Exceptions *)

Inductive exn : Type :=
| AssertionError (message : string)   (* assert.ok of node *)
| BNAssertion                          (* the assert of bn.js *)
| TypeError.                           (* property access on undefined *)

Inductive result (A : Type) : Type :=
| Ok (a : A)
| Throw (e : exn).

Arguments Ok {A} a.
Arguments Throw {A} e.

Definition bind {A B : Type} (r : result A) (k : A -> result B) : result B :=
  match r with
  | Ok a => k a
  | Throw e => Throw e
  end.

Notation "'do' x <- r ; k" := (bind r (fun x => k))
  (at level 10, x pattern, r at level 100, k at level 200).

(** [assert.ok(cond, message)] *)
Definition assert_ok (cond : bool) (message : string) : result unit :=
  if cond then Ok tt else Throw (AssertionError message).

(** ** JavaScript objects as ordered property lists *)

Module Obj.

Definition t (V : Type) : Type := list (string * V).

Section Ops.
Context {V : Type}.

Definition empty : t V := [].

(** [o[k]]; [None] is [undefined]. *)
Fixpoint get (k : string) (o : t V) : option V :=
  match o with
  | [] => None
  | (k', v) :: rest => if String.eqb k' k then Some v else get k rest
  end.

(** Defining the own property [k] with value [v], as [{ ...o, k: v }]
    does. *)
Fixpoint set (k : string) (v : V) (o : t V) : t V :=
  match o with
  | [] => [(k, v)]
  | (k', v') :: rest =>
      if String.eqb k' k then (k', v) :: rest else (k', v') :: set k v rest
  end.

(** [o[k] = v] on an object created by [{}].  For the key [__proto__] the
    assignment runs the setter of [Object.prototype]: the prototype changes
    when [v] is an object, and no own property is created. *)
Definition assign (k : string) (v : V) (o : t V) : t V :=
  if String.eqb k "__proto__" then o else set k v o.

(** The entries of [o] that a loop of assignments copies: all but the one
    whose key is [__proto__]. *)
Definition assignable (o : t V) : t V :=
  filter (fun kv => negb (String.eqb (fst kv) "__proto__")) o.

(** [Object.keys(o)], [Object.values(o)], [Object.entries(o)] *)
Definition keys (o : t V) : list string := map fst o.
Definition values (o : t V) : list V := map snd o.
Definition entries (o : t V) : list (string * V) := o.

(** [{ ...o }]: the own properties of [o] are set, in order, on a fresh
    object. *)
Definition spread_into (acc o : t V) : t V :=
  fold_left (fun acc kv => set (fst kv) (snd kv) acc) o acc.

Definition spread (o : t V) : t V := spread_into empty o.

(** A JavaScript object never holds a key twice. *)
Definition wf (o : t V) : Prop := NoDup (keys o).

End Ops.

End Obj.

(** ** JavaScript values at the boundary *)

(** The values the helpers are handed: the primitives and an object whose
    property values have type [V]. *)
Inductive jsval (V : Type) : Type :=
| JUndefined
| JNull
| JBoolean (b : bool)
| JNumber (n : Z)
| JString (s : string)
| JObject (o : Obj.t V).

Arguments JUndefined {V}.
Arguments JNull {V}.
Arguments JBoolean {V} b.
Arguments JNumber {V} n.
Arguments JString {V} s.
Arguments JObject {V} o.

(** The truth value of [raw] in [raw && ...]. *)
Definition truthy {V : Type} (raw : jsval V) : bool :=
  match raw with
  | JUndefined | JNull => false
  | JBoolean b => b
  | JNumber n => negb (n =? 0)
  | JString s => negb (String.eqb s "")
  | JObject _ => true
  end.

(** [typeof raw] *)
Definition typeof {V : Type} (raw : jsval V) : string :=
  match raw with
  | JUndefined => "undefined"
  | JNull => "object"
  | JBoolean _ => "boolean"
  | JNumber _ => "number"
  | JString _ => "string"
  | JObject _ => "object"
  end.

(** [Object.entries(raw)] once [raw] passed the assertion. *)
Definition Object_entries {V : Type} (raw : jsval V) : list (string * V) :=
  match raw with
  | JObject o => Obj.entries o
  | _ => []
  end.

(** The decimal writing of an array index. *)
Definition index_toString (i : nat) : string :=
  NilZero.string_of_uint (Nat.to_uint i).

(** The entries of a string primitive: index and character. *)
Fixpoint string_entries (i : nat) (s : string) : list (string * string) :=
  match s with
  | EmptyString => []
  | String c rest =>
      (index_toString i, String c EmptyString) :: string_entries (S i) rest
  end.

(** [Object.keys(raw)]: a TypeError on [undefined] and [null], no key for a
    boolean or a number, the indices for a string. *)
Definition Object_keys {V : Type} (raw : jsval V) : result (list string) :=
  match raw with
  | JUndefined | JNull => Throw TypeError
  | JBoolean _ | JNumber _ => Ok []
  | JString s => Ok (map fst (string_entries 0 s))
  | JObject o => Ok (Obj.keys o)
  end.

(** ** bn.js *)

Definition BN : Type := Z.

(** What the code hands to [new BN(x, 10)]: an existing [BN], which the
    constructor returns as it is, or a base-10 string. *)
Inductive amount : Type :=
| AmtBN (n : BN)
| AmtStr (s : string).

(** The digit value bn.js gives a character in [parseBase]: the code point
    minus 48 for '0'..'9' (letters are read as digits above 9). *)
Definition digit_of_char (c : ascii) : Z :=
  let c := Z.of_N (N_of_ascii c) - 48 in
  if 49 <=? c then c - 49 + 10
  else if 17 <=? c then c - 17 + 10
  else c.

(** [parseBase]: [r = r * 10 + digit] over the characters. *)
Fixpoint parseBase (r : Z) (s : string) : Z :=
  match s with
  | EmptyString => r
  | String c rest => parseBase (r * 10 + digit_of_char c) rest
  end.

(** The characters [number.replace(/\s+/g, '')] removes, among those below
    256: tab, line feed, vertical tab, form feed, carriage return, space and
    no-break space. *)
Definition is_space (c : ascii) : bool :=
  let n := N_of_ascii c in
  ((9 <=? n)%N && (n <=? 13)%N) || (n =? 32)%N || (n =? 160)%N.

Fixpoint strip_spaces (s : string) : string :=
  match s with
  | EmptyString => EmptyString
  | String c rest =>
      if is_space c then strip_spaces rest else String c (strip_spaces rest)
  end.

(** [new BN(s, 10)] on a string: white space is removed, then an optional
    leading '-' and the digits are read.  The empty string is read as zero.
    The statements below depend on this reading for digit strings only; on
    any other string they hold for whatever number the library reads. *)
Definition BN_of_string (s : string) : BN :=
  let number := strip_spaces s in
  match number with
  | String "-"%char rest => - parseBase 0 rest
  | _ => parseBase 0 number
  end.

(** [new BN(x, 10)]; [new BN(undefined, 10)] is zero. *)
Definition BN_new (x : option amount) : BN :=
  match x with
  | None => 0
  | Some (AmtBN n) => n
  | Some (AmtStr s) => BN_of_string s
  end.

(** What a raw balance map may hold for an address, as far as
    [new BN(bal, 10)] tells values apart: a string, a number (an integer),
    or an object that is not a [BN] and has no numeric [length], such as
    [{}]. *)
Inductive rawAmount : Type :=
| RawStr (s : string)
| RawNum (n : Z)
| RawObject.

(** [new BN(bal, 10)] on such a value: bn.js asserts that a number is below
    2^53 in magnitude, and that an object has a numeric [length]. *)
Definition BN_of_raw (bal : rawAmount) : result BN :=
  match bal with
  | RawStr s => Ok (BN_of_string s)
  | RawNum n => if Z.abs n <? 2 ^ 53 then Ok n else Throw BNAssertion
  | RawObject => Throw BNAssertion
  end.

(** [n.toString(10)] *)
Definition BN_toString (n : BN) : string :=
  NilZero.string_of_int (Z.to_int n).

Definition BN_add (a b : BN) : BN := a + b.
Definition BN_sub (a b : BN) : BN := a - b.
Definition BN_mul (a b : BN) : BN := a * b.
Definition BN_isNeg (a : BN) : bool := a <? 0.

(** [a.div(b)]: bn.js asserts [!b.isZero()] and truncates toward zero. *)
Definition BN_div (a b : BN) : result BN :=
  if b =? 0 then Throw BNAssertion else Ok (Z.quot a b).

(** ** Channels *)

Record Validator : Type := mkValidator {
  validator_id : string;
  fee : amount
}.

Record ChannelSpec : Type := mkChannelSpec {
  validators : list Validator
}.

Record Channel : Type := mkChannel {
  id : string;
  depositAmount : amount;
  spec : ChannelSpec
}.

(** [channel.spec.validators[i]]: reading a property of a missing element
    throws a TypeError. *)
Definition validator_at (channel : Channel) (i : nat) : result Validator :=
  match nth_error (validators (spec channel)) i with
  | Some v => Ok v
  | None => Throw TypeError
  end.

(** ** Fee distribution *)

(** [getValidatorFee(publisherBalance, totalValidatorFee, depositAmount)] *)
Definition getValidatorFee (publisherBalance totalValidatorFee depositAmount : BN)
  : result BN :=
  let numerator := BN_sub depositAmount totalValidatorFee in
  do fee <- BN_div (BN_mul publisherBalance numerator) depositAmount;
  Ok fee.

(** The state of the [forEach] loop of [getBalancesAfterFeesTree]. *)
Record feeLoop : Type := mkFeeLoop {
  currentValidatorFee : BN;
  balancesAfterFees : Obj.t BN
}.

(** [balances[publisher]] for what [getBalancesAfterFeesTree] is handed:
    the property of an object, the character of a string, [undefined]
    ([None]) otherwise. *)
Definition balance_at (publisher : string) (balances : jsval amount)
  : option amount :=
  match balances with
  | JObject o => Obj.get publisher o
  | JString s => option_map AmtStr (Obj.get publisher (string_entries 0 s))
  | _ => None
  end.

(** The body of the loop, for one publisher. *)
Definition feeLoop_body (balances : jsval amount)
  (totalValidatorFee : BN) (depositAmount : amount)
  (st : feeLoop) (publisher : string) : result feeLoop :=
  let publisherBalance := BN_new (balance_at publisher balances) in
  do validatorFee <-
    getValidatorFee publisherBalance totalValidatorFee (BN_new (Some depositAmount));
  let publisherBalance := BN_sub publisherBalance validatorFee in
  do _ <- assert_ok (negb (BN_isNeg publisherBalance))
            "publisher balance should not be negative";
  Ok {| currentValidatorFee := BN_add (currentValidatorFee st) validatorFee;
        balancesAfterFees :=
          Obj.assign publisher publisherBalance (balancesAfterFees st) |}.

(** [array.forEach] with a body that may throw. *)
Fixpoint forEach {A S : Type} (body : S -> A -> result S) (xs : list A) (st : S)
  : result S :=
  match xs with
  | [] => Ok st
  | x :: rest => do st' <- body st x; forEach body rest st'
  end.

(** [getBalancesAfterFeesTree(balances, channel)]; nothing checks that
    [balances] is an object. *)
Definition getBalancesAfterFeesTree (balances : jsval amount) (channel : Channel)
  : result (Obj.t BN) :=
  let depositAmount := depositAmount channel in
  do leader <- validator_at channel 0;
  let leaderFee := BN_new (Some (fee leader)) in
  do follower <- validator_at channel 1;
  let followerFee := BN_new (Some (fee follower)) in
  let totalValidatorFee := BN_add leaderFee followerFee in
  do publishers <- Object_keys balances;
  do st <- forEach (feeLoop_body balances totalValidatorFee depositAmount)
             publishers
             {| currentValidatorFee := 0; balancesAfterFees := Obj.empty |};
  Ok (Obj.set "validator" (currentValidatorFee st)
        (Obj.spread (balancesAfterFees st))).

(** ** Buffers *)

Definition Buffer : Type := list byte.

(** [Buffer.from(s)]: the bytes of the string. *)
Definition Buffer_from (s : string) : Buffer := list_byte_of_string s.

Definition hex_char (n : N) : ascii :=
  nth (N.to_nat n)
    ["0"; "1"; "2"; "3"; "4"; "5"; "6"; "7"; "8"; "9";
     "a"; "b"; "c"; "d"; "e"; "f"]%char "0"%char.

(** [buf.toString('hex')]: two lower-case hexadecimal digits per byte. *)
Fixpoint Buffer_toString_hex (b : Buffer) : string :=
  match b with
  | [] => EmptyString
  | x :: rest =>
      String (hex_char (N.div (Byte.to_N x) 16))
        (String (hex_char (N.modulo (Byte.to_N x) 16)) (Buffer_toString_hex rest))
  end.

(** [Buffer.compare]: bytes as unsigned numbers, buffers lexicographically. *)
Definition byte_compare (a b : byte) : comparison :=
  N.compare (Byte.to_N a) (Byte.to_N b).

Definition Buffer_compare (a b : Buffer) : comparison :=
  list_compare byte_compare a b.

(** ** The chain adapter *)

(** The capabilities [getStateRootHash] uses: [getBalanceLeaf(acc, amount)]
    (the amount is whatever [balances[acc]] is, [None] for [undefined]),
    [new MerkleTree(elems)], [tree.getRoot()] and
    [getSignableStateRoot(channelId, balanceRoot)]. *)
Record Adapter : Type := mkAdapter {
  tree : Type;
  getBalanceLeaf : string -> option BN -> Buffer;
  MerkleTree : list Buffer -> tree;
  getRoot : tree -> Buffer;
  getSignableStateRoot : Buffer -> Buffer -> Buffer
}.

(** [getStateRootHash(channel, balances, adapter)] *)
Definition getStateRootHash (channel : Channel) (balances : Obj.t BN)
  (adapter : Adapter) : string :=
  let elems :=
    map (fun acc => getBalanceLeaf adapter acc (Obj.get acc balances))
      (Obj.keys balances) in
  let tree := MerkleTree adapter elems in
  let balanceRoot := getRoot adapter tree in
  let stateRoot :=
    Buffer_toString_hex
      (getSignableStateRoot adapter (Buffer_from (id channel)) balanceRoot) in
  stateRoot.

(** The object [isValidRootHash] takes as its second argument. *)
Record RootHashArgs : Type := mkRootHashArgs {
  args_channel : Channel;
  args_balancesAfterFees : Obj.t BN;
  args_adapter : Adapter
}.

(** [isValidRootHash(leaderRootHash, { channel, balancesAfterFees, adapter })];
    [===] on two strings is equality of their characters. *)
Definition isValidRootHash (leaderRootHash : string) (args : RootHashArgs) : bool :=
  String.eqb
    (getStateRootHash (args_channel args) (args_balancesAfterFees args)
       (args_adapter args))
    leaderRootHash.

(** *** The Merkle tree of the adapters *)

(** Removing repeated elements and sorting, over any three-way comparison:
    the two steps of the canonical tree below. *)
Section Normalize.
Context {A : Type} (cmp : A -> A -> comparison).

(** Keeps the first occurrence of every element. *)
Fixpoint dedup (seen l : list A) : list A :=
  match l with
  | [] => []
  | x :: rest =>
      if existsb (fun y => match cmp x y with Eq => true | _ => false end) seen
      then dedup seen rest
      else x :: dedup (x :: seen) rest
  end.

Fixpoint insert_sorted (x : A) (l : list A) : list A :=
  match l with
  | [] => [x]
  | y :: rest =>
      match cmp x y with
      | Gt => y :: insert_sorted x rest
      | _ => x :: l
      end
  end.

Definition sort (l : list A) : list A := fold_right insert_sorted [] l.

(** [x] comes strictly before [y]. *)
Definition before (x y : A) : Prop := cmp x y = Lt.
End Normalize.

(** Modelled from the spec: the adapter's [MerkleTree] class, which is not
    among the sources, and of which the specification says that it
    deduplicates the leaves and sorts them internally, so that the order in
    which leaves are inserted never affects the root.  The tree is its
    canonical leaf sequence; how the root digest is computed from it is left
    to the adapter. *)
Definition MerkleTree_canonical (elems : list Buffer) : list Buffer :=
  sort Buffer_compare (dedup Buffer_compare [] elems).

(** An adapter whose tree is the canonical one, for any leaf encoding, root
    digest and commitment function. *)
Definition canonicalAdapter
  (leaf : string -> option BN -> Buffer)
  (digest : list Buffer -> Buffer)
  (commit : Buffer -> Buffer -> Buffer) : Adapter :=
  {| tree := list Buffer;
     getBalanceLeaf := leaf;
     MerkleTree := MerkleTree_canonical;
     getRoot := digest;
     getSignableStateRoot := commit |}.

(** ** String and big-number maps *)

(** [toBNMap(raw)]: [new BN(bal, 10)] may throw, which ends the loop. *)
Definition toBNMap (raw : jsval rawAmount) : result (Obj.t BN) :=
  do _ <- assert_ok (truthy raw && String.eqb (typeof raw) "object")
            "raw map is a valid object";
  do balances <-
    forEach
      (fun balances entry =>
         let '(acc, bal) := entry in
         do n <- BN_of_raw bal;
         Ok (Obj.assign acc n balances))
      (Object_entries raw) Obj.empty;
  Ok balances.

(** [toBNStringMap(raw)] *)
Definition toBNStringMap (raw : jsval BN) : result (Obj.t string) :=
  do _ <- assert_ok (truthy raw && String.eqb (typeof raw) "object")
            "raw map is a valid object";
  let balances :=
    fold_left
      (fun balances entry =>
         let '(acc, bal) := entry in
         Obj.assign acc (BN_toString bal) balances)
      (Object_entries raw) Obj.empty in
  Ok balances.

(** ** Validator messages *)

(** A message as exchanged: an object whose fields are primitives, or, for
    [balances], a raw balance map. *)
Definition Message : Type := Obj.t (jsval rawAmount).

(** [invalidNewState(channel, adapter, { reason, newMsg })], for any
    [persist] of the propagation module. *)
Definition invalidNewState {R : Type}
  (persist : Adapter -> Channel -> Message -> R)
  (channel : Channel) (adapter : Adapter)
  (reason : jsval rawAmount) (newMsg : Message) : R :=
  persist adapter channel
    (Obj.set "reason" reason
       (Obj.set "type" (JString "InvalidNewState") (Obj.spread newMsg))).

(** ** The validatorMessages collection *)

(** A stored document: the envelope and the message. *)
Record StoredMessage : Type := mkStoredMessage {
  channelId : string;
  from : string;
  msg : Message;
  received : Z            (* a Date, in milliseconds *)
}.

(** A document read through [VALIDATOR_MSGS_PROJ = { _id: 0, channelId: 0 }]. *)
Record ProjectedMessage : Type := mkProjectedMessage {
  proj_from : string;
  proj_msg : Message;
  proj_received : Z
}.

Definition VALIDATOR_MSGS_PROJ (d : StoredMessage) : ProjectedMessage :=
  {| proj_from := from d; proj_msg := msg d; proj_received := received d |}.

(** The collection: its documents in insertion order. *)
Definition Collection : Type := list StoredMessage.

Definition rawAmount_eq_dec (a b : rawAmount) : {a = b} + {a <> b}.
Proof.
  decide equality; solve [ apply Z.eq_dec | apply string_dec ].
Defined.

Definition jsval_eq_dec (a b : jsval rawAmount) : {a = b} + {a <> b}.
Proof.
  decide equality;
    solve [ apply Bool.bool_dec | apply Z.eq_dec | apply string_dec
          | apply list_eq_dec; decide equality;
            solve [ apply string_dec | apply rawAmount_eq_dec ] ].
Defined.

(** A query term [{ 'msg.<field>': value }]: the field equals the value. *)
Definition field_is (field : string) (value : option (jsval rawAmount)) (m : Message)
  : bool :=
  match Obj.get field m, value with
  | Some a, Some b => if jsval_eq_dec a b then true else false
  | None, None => true
  | _, _ => false
  end.

(** [col.find(query)], [col.findOne(query)] *)
Definition find (query : StoredMessage -> bool) (col : Collection)
  : list StoredMessage := filter query col.

Definition findOne (query : StoredMessage -> bool) (col : Collection)
  : option StoredMessage := List.find query col.

(** [.sort({ received: -1 })]: the most recent first. *)
Fixpoint insert_received_desc (d : StoredMessage) (l : list StoredMessage)
  : list StoredMessage :=
  match l with
  | [] => [d]
  | e :: rest =>
      if received e <=? received d then d :: l
      else e :: insert_received_desc d rest
  end.

Definition sort_received_desc (l : list StoredMessage) : list StoredMessage :=
  fold_right insert_received_desc [] l.

(** [.limit(n)] *)
Definition limit (n : nat) (l : list StoredMessage) : list StoredMessage :=
  firstn n l.

Record LastApproved : Type := mkLastApproved {
  newState : ProjectedMessage;
  approveState : ProjectedMessage
}.

(** The query for the follower's approvals. *)
Definition approveState_query (channel : Channel) (follower : Validator)
  (d : StoredMessage) : bool :=
  String.eqb (channelId d) (id channel)
  && String.eqb (from d) (validator_id follower)
  && field_is "type" (Some (JString "ApproveState")) (msg d).

(** The query for the leader's proposal with the approved state root. *)
Definition newState_query (channel : Channel) (leader : Validator)
  (approveState : ProjectedMessage) (d : StoredMessage) : bool :=
  String.eqb (channelId d) (id channel)
  && String.eqb (from d) (validator_id leader)
  && field_is "type" (Some (JString "NewState")) (msg d)
  && field_is "stateRoot" (Obj.get "stateRoot" (proj_msg approveState)) (msg d).

(** [retrieveLastApproved(channel)], over the collection; [None] is [null]. *)
Definition retrieveLastApproved (channel : Channel) (validatorMsgCol : Collection)
  : result (option LastApproved) :=
  do follower <- validator_at channel 1;
  let approveStateMsgs :=
    map VALIDATOR_MSGS_PROJ
      (limit 1
         (sort_received_desc
            (find (approveState_query channel follower) validatorMsgCol))) in
  match approveStateMsgs with
  | [] => Ok None
  | approveState :: _ =>
      do leader <- validator_at channel 0;
      let newState :=
        option_map VALIDATOR_MSGS_PROJ
          (findOne (newState_query channel leader approveState) validatorMsgCol) in
      match newState with
      | Some newState =>
          Ok (Some {| newState := newState; approveState := approveState |})
      | None => Ok None
      end
  end.

(** The request of [postValidatorMessages], after the middlewares. *)
Record Request : Type := mkRequest {
  req_channel : Channel;
  session_uid : string;
  body_messages : list Message
}.

Inductive Response : Type :=
| SendStatus (code : Z)
| SendSuccess.

(** [array.map((x, idx) => f(x, idx))] *)
Fixpoint map_idx {A B : Type} (f : A -> Z -> B) (idx : Z) (l : list A) : list B :=
  match l with
  | [] => []
  | x :: rest => f x idx :: map_idx f (idx + 1) rest
  end.

(** [postValidatorMessages(req, res, next)]: [now] is what [Date.now()]
    returns; the result is the response and the collection after the
    inserts. *)
Definition postValidatorMessages (now : Z) (req : Request) (validatorMsgCol : Collection)
  : Response * Collection :=
  if negb (existsb (fun v => String.eqb (validator_id v) (session_uid req))
             (validators (spec (req_channel req))))
  then (SendStatus 401, validatorMsgCol)
  else
    let messages := body_messages req in
    let startTime := now in
    let toInsert :=
      map_idx
        (fun msg idx =>
           {| channelId := id (req_channel req);
              from := session_uid req;
              msg := msg;
              received := startTime + idx |})
        0 messages in
    (SendSuccess, validatorMsgCol ++ toInsert).

(** ** Quantities the statements use *)

(** The sum of the values of a map of big numbers. *)
Definition sumBN (o : Obj.t BN) : Z := fold_right Z.add 0 (Obj.values o).

(** The sum of a raw balance map, each value read by [new BN(_, 10)]. *)
Definition sumRaw (o : Obj.t amount) : Z :=
  fold_right Z.add 0 (map (fun v => BN_new (Some v)) (Obj.values o)).

(** The total fee of a channel's two validators, the per-publisher term
    [b * (deposit - totalFee) / deposit] and what is left of [b]. *)
Definition totalFee (leader follower : Validator) : Z :=
  BN_new (Some (fee leader)) + BN_new (Some (fee follower)).

Definition feeTerm (deposit total b : Z) : Z := Z.quot (b * (deposit - total)) deposit.

Definition afterFee (deposit total b : Z) : Z := b - feeTerm deposit total b.

(** What the fee distribution computes from a raw balance map: the
    publishers' balances after fees and the sum of the per-publisher terms. *)
Definition postFees (deposit total : Z) (balances : Obj.t amount) : Obj.t BN :=
  map (fun kv => (fst kv, afterFee deposit total (BN_new (Some (snd kv))))) balances.

Definition feesOf (deposit total : Z) (balances : Obj.t amount) : Z :=
  fold_right Z.add 0
    (map (fun v => feeTerm deposit total (BN_new (Some v))) (Obj.values balances)).

(** A map of strings as a raw balance map. *)
Definition rawStrings (o : Obj.t string) : Obj.t rawAmount :=
  map (fun kv => (fst kv, RawStr (snd kv))) o.

(** Two property lists that are the same map. *)
Definition same_map {V : Type} (a b : Obj.t V) : Prop :=
  forall k, Obj.get k a = Obj.get k b.

(** A base-10 string without superfluous leading zeros. *)
Definition is_digit (c : ascii) : bool :=
  let n := N_of_ascii c in (48 <=? n)%N && (n <=? 57)%N.

Fixpoint all_digits (s : string) : bool :=
  match s with
  | EmptyString => true
  | String c rest => is_digit c && all_digits rest
  end.

Definition is_decimal (s : string) : bool :=
  match s with
  | EmptyString => false
  | _ => all_digits s
  end.

Definition is_canonical_decimal (s : string) : bool :=
  match s with
  | EmptyString => false
  | String c rest =>
      all_digits s && (negb (Ascii.eqb c "0") || String.eqb rest "")
  end.

(** The value of a digit sequence, read from an accumulator as [parseBase]
    does. *)
Fixpoint uint_value (r : Z) (d : Decimal.uint) : Z :=
  match d with
  | Decimal.Nil => r
  | Decimal.D0 d => uint_value (r * 10 + 0) d
  | Decimal.D1 d => uint_value (r * 10 + 1) d
  | Decimal.D2 d => uint_value (r * 10 + 2) d
  | Decimal.D3 d => uint_value (r * 10 + 3) d
  | Decimal.D4 d => uint_value (r * 10 + 4) d
  | Decimal.D5 d => uint_value (r * 10 + 5) d
  | Decimal.D6 d => uint_value (r * 10 + 6) d
  | Decimal.D7 d => uint_value (r * 10 + 7) d
  | Decimal.D8 d => uint_value (r * 10 + 8) d
  | Decimal.D9 d => uint_value (r * 10 + 9) d
  end.

(** ** Sample data *)

Definition sampleLeader : Validator := {| validator_id := "leader"; fee := AmtStr "10" |}.
Definition sampleFollower : Validator := {| validator_id := "follower"; fee := AmtStr "5" |}.

Definition channel_1000_10_5 : Channel :=
  {| id := "channel";
     depositAmount := AmtStr "1000";
     spec := {| validators := [sampleLeader; sampleFollower] |} |}.

Definition channel_10_10_5 : Channel :=
  {| id := "channel";
     depositAmount := AmtStr "10";
     spec := {| validators := [ {| validator_id := "leader"; fee := AmtStr "10" |};
                                {| validator_id := "follower"; fee := AmtStr "5" |} ] |} |}.

(** An adapter to run the state root on: a leaf is the bytes of the
    address followed by the amount in decimal, the digest is the
    concatenation of the leaves. *)
Definition sampleAdapter : Adapter :=
  canonicalAdapter
    (fun acc amount =>
       Buffer_from acc
       ++ match amount with
          | Some n => Buffer_from (BN_toString n)
          | None => []
          end)
    (fun leaves => concat leaves)
    (fun channelId balanceRoot => channelId ++ balanceRoot).

Definition sampleNewState : Message :=
  [("type", JString "NewState");
   ("stateRoot", JString "6368616e6e656c61326233");
   ("balances", JObject [("a", RawStr "2"); ("b", RawStr "3")]);
   ("signature", JString "sig")].

Definition sampleApproveState : Message :=
  [("type", JString "ApproveState");
   ("stateRoot", JString "6368616e6e656c61326233");
   ("signature", JString "sig2")].

Definition sampleCollection : Collection :=
  [ {| channelId := "channel"; from := "leader"; msg := sampleNewState; received := 1000 |};
    {| channelId := "channel"; from := "follower"; msg := sampleApproveState;
       received := 1001 |};
    {| channelId := "other"; from := "follower"; msg := sampleApproveState;
       received := 1002 |} ].

Definition sampleBatch : Request :=
  {| req_channel := channel_1000_10_5; session_uid := "leader";
     body_messages := [sampleNewState; sampleNewState; sampleNewState;
                       sampleNewState; sampleNewState] |}.

(** ** Further functions of the worker library *)

(** The bytes whose hexadecimal writing [getStateRootHash] returns. *)
Definition signableStateRoot (channel : Channel) (balances : Obj.t BN)
  (adapter : Adapter) : Buffer :=
  getSignableStateRoot adapter (Buffer_from (id channel))
    (getRoot adapter
       (MerkleTree adapter
          (map (fun acc => getBalanceLeaf adapter acc (Obj.get acc balances))
             (Obj.keys balances)))).

(** The value of a hexadecimal digit, used to read a hexadecimal string
    back. *)
Definition hex_val (c : ascii) : N :=
  let n := N_of_ascii c in
  if (n <? 58)%N then (n - 48)%N else (n - 87)%N.

Definition is_hex_char (c : ascii) : bool :=
  let n := N_of_ascii c in
  ((48 <=? n)%N && (n <=? 57)%N) || ((97 <=? n)%N && (n <=? 102)%N).

Fixpoint all_hex (s : string) : bool :=
  match s with
  | EmptyString => true
  | String c rest => is_hex_char c && all_hex rest
  end.

(** [Object.entries(raw)] with every value already written by
    [bal.toString()]: a TypeError on [undefined] and [null], no entry for a
    boolean or a number, index and character for a string. *)
Definition entries_toString (raw : jsval BN) : result (list (string * string)) :=
  match raw with
  | JUndefined | JNull => Throw TypeError
  | JBoolean _ | JNumber _ => Ok []
  | JString s => Ok (string_entries 0 s)
  | JObject o => Ok (map (fun entry => (fst entry, BN_toString (snd entry))) (Obj.entries o))
  end.

(** [toStringBN(raw)] *)
Definition toStringBN (raw : jsval BN) : result string :=
  do entries <- entries_toString raw;
  Ok (fold_left
        (fun result entry =>
           let '(acc, bal) := entry in
           String.append result
             (String.append " " (String.append acc (String.append ": " bal))))
        entries "").

Definition LF : string := String (ascii_of_nat 10) EmptyString.
Definition TAB : string := String (ascii_of_nat 9) EmptyString.

(** [getErrorMsg(type, channel, prevBalancesString, newBalancesString)]: the
    template has a line break and three tabs after [NewState ], and an
    escaped line break before [ newBalances]. *)
Definition getErrorMsg (type : string) (channel : Channel)
  (prevBalancesString newBalancesString : string) : string :=
  String.concat ""
    [ "validatatorWorker: "; id channel; ": "; type; " requested in NewState ";
      LF; TAB; TAB; TAB; " prevBalances: "; prevBalancesString; ", ";
      LF; " newBalances: "; newBalancesString ].

(** What [onError] resolves to. *)
Record TickResult : Type := mkTickResult {
  nothingNew : bool
}.

(** [onError(channel, adapter, { reason, newMsg, prevBalancesString,
    newBalancesString })].  [persist] acts on a store of type [S] and settles
    with a value or a rejection; the result is what the returned promise
    settles with, the lines written by [console.error] and the store. *)
Definition onError {S P : Type}
  (persist : Adapter -> Channel -> Message -> S -> result P * S)
  (channel : Channel) (adapter : Adapter)
  (reason : string) (newMsg : Message)
  (prevBalancesString newBalancesString : string)
  (store : S) : result TickResult * list string * S :=
  let errMsg := getErrorMsg reason channel prevBalancesString newBalancesString in
  match invalidNewState persist channel adapter (JString reason) newMsg store with
  | (Ok _, store') => (Ok {| nothingNew := true |}, [errMsg], store')
  | (Throw e, store') => (Throw e, [], store')
  end.

(** ** Further functions of the channel routes *)

(** [getGroup(timeframe)]; [timeframe === 'month'] holds for the string
    [month] only. *)
Definition getGroup (timeframe : jsval string) : Obj.t string :=
  let equals (name : string) : bool :=
    match timeframe with
    | JString s => String.eqb s name
    | _ => false
    end in
  if equals "month" then [("year", "$year"); ("month", "$month")]
  else if equals "week" then [("year", "$year"); ("week", "$week")]
  else if equals "day" then
    [("year", "$year"); ("month", "$month"); ("day", "$day")]
  else if equals "hour" then
    [("year", "$year"); ("month", "$month"); ("day", "$day"); ("hour", "$hour")]
  else if equals "minute" then
    [("year", "$year"); ("week", "$week"); ("month", "$month"); ("day", "$day");
     ("hour", "$hour"); ("minutes", "$minutes")]
  else [("year", "$year")].

(** An entry of the [$project] stage of [getEventTimeAggregate]: [1], or a
    date operator applied to a field. *)
Inductive projection_expr : Type :=
| Include
| DateOp (operator field : string).

(** The [$project] stage of the pipeline of [getEventTimeAggregate]. *)
Definition eventTimeAggregate_project : Obj.t projection_expr :=
  [ ("value", Include);
    ("created", Include);
    ("year", DateOp "$year" "$created");
    ("month", DateOp "$month" "$created");
    ("week", DateOp "$week" "$created");
    ("day", DateOp "$dayOfMonth" "$created");
    ("hour", DateOp "$hour" "$created");
    ("minutes", DateOp "$minute" "$created") ].

(** A term of the query of [getEventAggregates]. *)
Inductive query_term : Type :=
| QEquals (value : string)
| QExists (flag : bool)
| QGtDate (date : option Z).      (* a Date in milliseconds, [None] when invalid *)

(** The query and the projection [getEventAggregates] hands to [find], for
    the session's [uid] and the [after] parameter of the request.
    [parseDate s] is [new Date(parseInt(s, 10))]. *)
Definition getEventAggregates_query (parseDate : string -> option Z)
  (channel : Channel) (uid : string) (after : jsval string)
  : Obj.t query_term * Obj.t Z :=
  let query := [("channelId", QEquals (id channel))] in
  let projection := [("_id", 0)] in
  let isSuperuser :=
    existsb (fun v => String.eqb (validator_id v) uid) (validators (spec channel)) in
  let '(query, projection) :=
    if negb isSuperuser then
      let keyCounts := String.append "events.IMPRESSION.eventCounts." uid in
      let keyPayouts := String.append "events.IMPRESSION.eventPayouts." uid in
      (Obj.set keyCounts (QExists true) (Obj.spread query),
       Obj.set keyPayouts 1
         (Obj.set keyCounts 1 (Obj.set "created" 1 (Obj.spread projection))))
    else (query, projection) in
  let query :=
    match after with
    | JString s => Obj.set "created" (QGtDate (parseDate s)) (Obj.spread query)
    | _ => query
    end in
  (query, projection).

(** [s.split(sep)] for a separator of one character. *)
Fixpoint split_on (sep : ascii) (s : string) : list string :=
  match s with
  | EmptyString => [EmptyString]
  | String c rest =>
      if Ascii.eqb c sep then EmptyString :: split_on sep rest
      else
        match split_on sep rest with
        | [] => [String c EmptyString]
        | first :: others => String c first :: others
        end
  end.

(** The truth value of a header: [undefined] and the empty string are
    false. *)
Definition header_truthy (h : option string) : bool :=
  match h with
  | Some s => negb (String.eqb s "")
  | None => false
  end.

(** The [ip] of [postEvents]:
    [trueip || (xforwardedfor ? xforwardedfor.split(',')[0] : null)];
    [None] is [null]. *)
Definition postEvents_ip (trueip xforwardedfor : option string) : option string :=
  if header_truthy trueip then trueip
  else if header_truthy xforwardedfor then
    match xforwardedfor with
    | Some x => nth_error (split_on "," x) 0
    | None => None
    end
  else None.

(** [postEvents(req, res, next)]: [record] is the aggregator's function,
    [statusCode] reads [resp.statusCode] ([None] when it is undefined); the
    result is the status and the body sent, or the error handed to [next]. *)
Definition postEvents {Events Resp : Type}
  (record : string -> Obj.t (jsval string) -> Events -> result Resp)
  (statusCode : Resp -> option Z)
  (params_id : string) (session : option (Obj.t (jsval string)))
  (trueip xforwardedfor : option string) (events : Events)
  : result (Z * Resp) :=
  let ip := postEvents_ip trueip xforwardedfor in
  let session' :=
    Obj.set "ip" (match ip with Some s => JString s | None => JNull end)
      (Obj.spread (match session with Some o => o | None => Obj.empty end)) in
  do resp <- record params_id session' events;
  let status :=
    match statusCode resp with
    | Some code => if code =? 0 then 200 else code
    | None => 200
    end in
  Ok (status, resp).

(** ** The earlier channel routes *)

(** The length of a string is the number of its characters, as in
    JavaScript for characters below 256. *)
Module Legacy.

(** The channel of the earlier routes: its validators are identifiers. *)
Record Channel : Type := mkChannel {
  channel_id : string;
  channel_validators : list string
}.

(** An element of [req.body.messages]: any value; an object is a message. *)
Definition Element : Type := jsval (jsval rawAmount).

(** A stored document of the earlier routes: no [received] field, and the
    element as it was posted. *)
Record StoredMessage : Type := mkStoredMessage {
  channelId : string;
  from : string;
  msg : Element
}.

(** [req.body.messages] is [None] when it is not an array. *)
Record Request : Type := mkRequest {
  req_channel : Channel;
  session_uid : string;
  body_messages : option (list Element)
}.

(** The document the handler inserts for an element of the batch. *)
Definition document (req : Request) (msg : Element) : StoredMessage :=
  {| channelId := channel_id (req_channel req);
     from := session_uid req;
     msg := msg |}.

(** How the handler ends: a response, an exception of the handler itself,
    or the error of a rejected insert handed to [next]. *)
Inductive Reply : Type :=
| Sent (r : Response)
| Thrown (e : exn)
| InsertFailed.

(** [typeof msg.field] *)
Definition typeof_field (field : string) (m : Message) : string :=
  match Obj.get field m with
  | Some v => typeof v
  | None => "undefined"
  end.

(** [msg.stateRoot.length == 64] *)
Definition stateRoot_length_is_64 (m : Message) : bool :=
  match Obj.get "stateRoot" m with
  | Some (JString s) => Nat.eqb (String.length s) 64
  | _ => false
  end.

(** [isValidatorMsgValid(msg)] on an object *)
Definition isValidatorMsgValid (m : Message) : bool :=
  String.eqb (typeof_field "stateRoot" m) "string"
  && stateRoot_length_is_64 m
  && String.eqb (typeof_field "signature" m) "string"
  && ((field_is "type" (Some (JString "NewState")) m
       && String.eqb (typeof_field "balances" m) "object")
      || field_is "type" (Some (JString "ApproveState")) m).

(** [isValidatorMsgValid(msg)] on an element of the array: reading
    [msg.stateRoot] throws a TypeError on [undefined] and [null], and is
    [undefined] on any other primitive. *)
Definition isValidatorMsgValid_element (msg : Element) : result bool :=
  match msg with
  | JUndefined | JNull => Throw TypeError
  | JBoolean _ | JNumber _ | JString _ => Ok false
  | JObject m => Ok (isValidatorMsgValid m)
  end.

(** [array.every(f)] with a callback that may throw: it stops at the first
    element on which [f] is false. *)
Fixpoint every {A : Type} (f : A -> result bool) (l : list A) : result bool :=
  match l with
  | [] => Ok true
  | x :: rest => do b <- f x; if b then every f rest else Ok false
  end.

(** The documents whose [insertOne] succeeded, [inserted i] telling it of
    the call number [i]. *)
Fixpoint stored_of (inserted : nat -> bool) (i : nat) (docs : list StoredMessage)
  : list StoredMessage :=
  match docs with
  | [] => []
  | d :: rest =>
      if inserted i then d :: stored_of inserted (S i) rest
      else stored_of inserted (S i) rest
  end.

(** [postValidatorMessages(req, res, next)] of the earlier routes.  Every
    message has an [insertOne] of its own and all of them are started
    before any is awaited; [inserted i] tells whether the call number [i]
    succeeds.  The result is how the handler ends and the collection after
    the inserts, the documents in the order of the calls. *)
Definition postValidatorMessages (inserted : nat -> bool)
  (req : Request) (validatorMsgCol : list StoredMessage)
  : Reply * list StoredMessage :=
  if negb (existsb (String.eqb (session_uid req))
             (channel_validators (req_channel req)))
  then (Sent (SendStatus 401), validatorMsgCol)
  else
    let messages := body_messages req in
    let isValid :=
      match messages with
      | Some l => every isValidatorMsgValid_element l
      | None => Ok false
      end in
    match isValid with
    | Throw e => (Thrown e, validatorMsgCol)
    | Ok isValid =>
        if negb isValid then (Sent (SendStatus 400), validatorMsgCol)
        else
          let toInsert :=
            map (fun msg =>
                   {| channelId := channel_id (req_channel req);
                      from := session_uid req;
                      msg := msg |})
              (match messages with Some l => l | None => [] end) in
          (if forallb inserted (seq 0 (length toInsert))
           then Sent SendSuccess else InsertFailed,
           validatorMsgCol ++ stored_of inserted 0 toInsert)
    end.

End Legacy.

(** ** Quantities the further statements use *)

(** [c] occurs in [s]. *)
Fixpoint has_char (c : ascii) (s : string) : bool :=
  match s with
  | EmptyString => false
  | String c' rest => Ascii.eqb c' c || has_char c rest
  end.

(** Every document of the channel in the collection names one of the
    channel's validators as its author. *)
Definition authored_by_validators (channel : Channel) (col : Collection) : Prop :=
  forall d,
    In d col -> channelId d = id channel ->
    exists v, In v (validators (spec channel)) /\ validator_id v = from d.


Definition sampleNullBalances : Message :=
  [("type", JString "NewState");
   ("stateRoot", JString "0000000000000000000000000000000000000000000000000000000000000000");
   ("balances", JNull);
   ("signature", JString "sig")].

(** A message that passes the earlier validation with balances [toBNMap]
    refuses. *)
Definition sampleOddBalances : Message :=
  [("type", JString "NewState");
   ("stateRoot", JString "0000000000000000000000000000000000000000000000000000000000000000");
   ("balances", JObject [("a", RawStr "1"); ("b", RawObject)]);
   ("signature", JString "sig")].

(** An adapter whose signable root has 32 bytes. *)
Definition sampleAdapter32 : Adapter :=
  canonicalAdapter
    (fun acc amount => Buffer_from acc)
    (fun leaves => concat leaves)
    (fun channelId balanceRoot =>
       firstn 32 (channelId ++ balanceRoot ++ repeat "000"%byte 32)).

Definition sampleRootedApprove : Message :=
  [("type", JString "ApproveState");
   ("stateRoot",
    JString (getStateRootHash channel_1000_10_5 [("a", 2); ("b", 3)] sampleAdapter32));
   ("signature", JString "sig")].

Definition sampleLegacyBatch : Legacy.Request :=
  {| Legacy.req_channel :=
       {| Legacy.channel_id := "channel";
          Legacy.channel_validators := ["leader"; "follower"] |};
     Legacy.session_uid := "leader";
     Legacy.body_messages :=
       Some [JObject sampleRootedApprove; JObject sampleNullBalances] |}.

(** * Properties *)

(** The scenario of the specification: deposit 1000, fees 10 and 5. *)
Example fees_scenario :
  getBalancesAfterFeesTree (JObject [("A", AmtStr "100"); ("B", AmtStr "200")])
    channel_1000_10_5
  = Ok [("A", 2); ("B", 3); ("validator", 295)].
Proof. reflexivity. Qed.

(** ** Objects *)

Section ObjFacts.
Context {V : Type}.
Implicit Types (o : Obj.t V) (k : string) (v : V).

Lemma get_set_same k v o : Obj.get k (Obj.set k v o) = Some v.
Proof.
  induction o as [|[k' v'] o IH]; simpl.
  - now rewrite String.eqb_refl.
  - destruct (String.eqb k' k) eqn:E; simpl; rewrite E; auto.
Qed.

Lemma get_set_other k k' v o :
  k <> k' -> Obj.get k' (Obj.set k v o) = Obj.get k' o.
Proof.
  intros Hne. induction o as [|[k0 v0] o IH]; simpl.
  - destruct (String.eqb k k') eqn:E; auto.
    apply String.eqb_eq in E. contradiction.
  - destruct (String.eqb k0 k) eqn:E; simpl.
    + apply String.eqb_eq in E. subst k0.
      destruct (String.eqb k k') eqn:E'; auto.
      apply String.eqb_eq in E'. contradiction.
    + now rewrite IH.
Qed.

Lemma set_fresh k v o :
  ~ In k (Obj.keys o) -> Obj.set k v o = o ++ [(k, v)].
Proof.
  induction o as [|[k' v'] o IH]; simpl; intros Hn; auto.
  destruct (String.eqb k' k) eqn:E.
  - apply String.eqb_eq in E. tauto.
  - rewrite IH; tauto.
Qed.

Lemma keys_set k v o :
  Obj.keys (Obj.set k v o)
  = if in_dec string_dec k (Obj.keys o) then Obj.keys o else Obj.keys o ++ [k].
Proof.
  induction o as [|[k' v'] o IH]; simpl.
  - reflexivity.
  - destruct (String.eqb k' k) eqn:E.
    + apply String.eqb_eq in E. subst k'.
      destruct (string_dec k k); [|congruence].
      reflexivity.
    + apply String.eqb_neq in E. simpl. rewrite IH.
      destruct (string_dec k' k); [contradiction|].
      destruct (in_dec string_dec k (Obj.keys o)); reflexivity.
Qed.

Lemma get_None_iff k o : Obj.get k o = None <-> ~ In k (Obj.keys o).
Proof.
  induction o as [|[k' v'] o IH]; simpl.
  - tauto.
  - destruct (String.eqb k' k) eqn:E.
    + apply String.eqb_eq in E. split; [discriminate | tauto].
    + apply String.eqb_neq in E. tauto.
Qed.

Lemma get_Some_In k v o : Obj.get k o = Some v -> In (k, v) o.
Proof.
  induction o as [|[k' v'] o IH]; simpl; [discriminate|].
  destruct (String.eqb k' k) eqn:E.
  - apply String.eqb_eq in E. intros [= ->]. subst. auto.
  - auto.
Qed.

Lemma get_In_wf k v o : Obj.wf o -> In (k, v) o -> Obj.get k o = Some v.
Proof.
  unfold Obj.wf.
  induction o as [|[k' v'] o IH]; simpl; [tauto|].
  intros Hnd [Heq | Hin].
  - injection Heq as -> ->. now rewrite String.eqb_refl.
  - inversion Hnd as [|? ? Hni Hnd']; subst.
    destruct (String.eqb k' k) eqn:E.
    + apply String.eqb_eq in E. subst k'.
      exfalso. apply Hni. apply (in_map fst) in Hin. exact Hin.
    + auto.
Qed.

Lemma spread_into_fresh o : forall acc,
  NoDup (Obj.keys acc ++ Obj.keys o) -> Obj.spread_into acc o = acc ++ o.
Proof.
  unfold Obj.spread_into.
  induction o as [|[k v] o IH]; intros acc Hnd; simpl.
  - now rewrite app_nil_r.
  - simpl in Hnd.
    assert (Hk : ~ In k (Obj.keys acc)).
    { apply NoDup_remove_2 in Hnd. intros Hin. apply Hnd.
      apply in_or_app. now left. }
    rewrite (set_fresh k v acc Hk), IH.
    + now rewrite <- app_assoc.
    + unfold Obj.keys in *. rewrite map_app. simpl.
      rewrite <- app_assoc. exact Hnd.
Qed.

Lemma spread_wf o : Obj.wf o -> Obj.spread o = o.
Proof.
  intros Hwf. unfold Obj.spread. now rewrite spread_into_fresh.
Qed.

Lemma assign_other k v o : k <> "__proto__" -> Obj.assign k v o = Obj.set k v o.
Proof.
  intros Hk. unfold Obj.assign.
  destruct (String.eqb k "__proto__") eqn:E; [|reflexivity].
  apply String.eqb_eq in E. contradiction.
Qed.

Lemma keys_assignable o :
  Obj.keys (Obj.assignable o)
  = filter (fun k => negb (String.eqb k "__proto__")) (Obj.keys o).
Proof.
  induction o as [|[k v] o IH]; simpl; [reflexivity|].
  destruct (String.eqb k "__proto__"); simpl; now rewrite IH.
Qed.

Lemma assignable_wf o : Obj.wf o -> Obj.wf (Obj.assignable o).
Proof.
  unfold Obj.wf. rewrite keys_assignable. apply NoDup_filter.
Qed.

Lemma In_assignable k v o :
  In (k, v) (Obj.assignable o) <-> In (k, v) o /\ k <> "__proto__".
Proof.
  unfold Obj.assignable. rewrite filter_In. simpl.
  rewrite negb_true_iff, String.eqb_neq. tauto.
Qed.

Lemma assignable_id o : ~ In "__proto__" (Obj.keys o) -> Obj.assignable o = o.
Proof.
  induction o as [|[k v] o IH]; simpl; intros Hn; [reflexivity|].
  destruct (String.eqb k "__proto__") eqn:E.
  - apply String.eqb_eq in E. tauto.
  - simpl. rewrite IH; tauto.
Qed.

Lemma get_assignable k o :
  k <> "__proto__" -> Obj.get k (Obj.assignable o) = Obj.get k o.
Proof.
  intros Hk. induction o as [|[k' v'] o IH]; simpl; [reflexivity|].
  destruct (String.eqb k' "__proto__") eqn:E; simpl.
  - apply String.eqb_eq in E. subst k'.
    destruct (String.eqb "__proto__" k) eqn:E'; [|exact IH].
    apply String.eqb_eq in E'. congruence.
  - now rewrite IH.
Qed.

Lemma get_assignable_proto o : Obj.get "__proto__" (Obj.assignable o) = None.
Proof.
  apply get_None_iff. rewrite keys_assignable, filter_In.
  intros [_ H]. discriminate.
Qed.

End ObjFacts.

(** ** Fee distribution *)

Lemma sumBN_app (a b : Obj.t BN) : sumBN (a ++ b) = sumBN a + sumBN b.
Proof.
  unfold sumBN, Obj.values. induction a as [|[k v] a IH]; simpl; lia.
Qed.

Lemma sumBN_set_fresh k v (o : Obj.t BN) :
  ~ In k (Obj.keys o) -> sumBN (Obj.set k v o) = sumBN o + v.
Proof.
  intros Hk. rewrite set_fresh by assumption. rewrite sumBN_app.
  unfold sumBN. simpl. lia.
Qed.

Lemma feeTerm_afterFee deposit total b :
  afterFee deposit total b + feeTerm deposit total b = b.
Proof. unfold afterFee. lia. Qed.

Lemma afterFee_nonneg deposit total b :
  0 < deposit -> 0 <= total -> 0 <= b -> 0 <= afterFee deposit total b.
Proof.
  intros Hd Ht Hb. unfold afterFee, feeTerm.
  destruct (Z_le_gt_dec 0 (deposit - total)) as [Hn | Hn].
  - rewrite Z.quot_div_nonneg by nia.
    assert (b * (deposit - total) / deposit <= b); [|lia].
    apply Z.div_le_upper_bound; nia.
  - assert (Hq : Z.quot (b * (deposit - total)) deposit <= 0); [|lia].
    replace (b * (deposit - total)) with (- (b * (total - deposit))) by ring.
    rewrite Z.quot_opp_l by lia.
    assert (0 <= Z.quot (b * (total - deposit)) deposit); [|lia].
    apply Z.quot_pos; nia.
Qed.

Lemma feeTerm_nonneg deposit total b :
  0 < deposit -> total <= deposit -> 0 <= b -> 0 <= feeTerm deposit total b.
Proof.
  intros Hd Ht Hb. unfold feeTerm. apply Z.quot_pos; nia.
Qed.

Lemma feesOf_nonneg deposit total balances :
  0 < deposit -> total <= deposit ->
  (forall k v, In (k, v) balances -> 0 <= BN_new (Some v)) ->
  0 <= feesOf deposit total balances.
Proof.
  intros Hd Ht. unfold feesOf, Obj.values.
  induction balances as [|[k x] o IH]; intros Hraw; cbn [map fold_right snd];
    [lia|].
  pose proof (feeTerm_nonneg deposit total (BN_new (Some x)) Hd Ht
                (Hraw k x (or_introl eq_refl))).
  assert (0 <= fold_right Z.add 0
            (map (fun v => feeTerm deposit total (BN_new (Some v))) (map snd o))).
  { apply IH. intros k' v' Hin. apply (Hraw k' v'). now right. }
  lia.
Qed.

Section FeeLoop.
Variable balances : Obj.t amount.
Variable total : BN.
Variable deposit : amount.

Local Abbreviation D := (BN_new (Some deposit)).
Local Abbreviation raw k := (BN_new (Obj.get k balances)).
Local Abbreviation post k := (afterFee D total (raw k)).
Local Abbreviation term k := (feeTerm D total (raw k)).
Local Abbreviation body := (feeLoop_body (JObject balances) total deposit).

Lemma feeLoop_body_inv st k st' :
  body st k = Ok st' ->
  D <> 0 /\ 0 <= post k /\
  st' = {| currentValidatorFee := currentValidatorFee st + term k;
           balancesAfterFees := Obj.assign k (post k) (balancesAfterFees st) |}.
Proof.
  unfold feeLoop_body, getValidatorFee, BN_div, BN_sub, BN_mul, BN_add,
    BN_isNeg, assert_ok, balance_at.
  destruct (D =? 0) eqn:ED; cbn [bind]; [discriminate|].
  apply Z.eqb_neq in ED.
  fold (feeTerm D total (raw k)). fold (afterFee D total (raw k)).
  destruct (post k <? 0) eqn:EN; cbn [bind negb]; [discriminate|].
  apply Z.ltb_ge in EN. intros [= <-]. auto.
Qed.

Lemma feeLoop_body_Ok st k :
  D <> 0 -> 0 <= post k ->
  body st k
  = Ok {| currentValidatorFee := currentValidatorFee st + term k;
          balancesAfterFees := Obj.assign k (post k) (balancesAfterFees st) |}.
Proof.
  intros HD Hp.
  unfold feeLoop_body, getValidatorFee, BN_div, BN_sub, BN_mul, BN_add,
    BN_isNeg, assert_ok, balance_at.
  apply Z.eqb_neq in HD. rewrite HD. cbn [bind].
  fold (feeTerm D total (raw k)). fold (afterFee D total (raw k)).
  apply Z.ltb_ge in Hp. rewrite Hp. reflexivity.
Qed.

Lemma forEach_fee_inv ks : forall st st',
  NoDup ks ->
  (forall k, In k ks -> ~ In k (Obj.keys (balancesAfterFees st))) ->
  forEach body ks st = Ok st' ->
  balancesAfterFees st'
  = balancesAfterFees st
    ++ map (fun k => (k, post k))
         (filter (fun k => negb (String.eqb k "__proto__")) ks)
  /\ currentValidatorFee st'
     = currentValidatorFee st + fold_right Z.add 0 (map (fun k => term k) ks)
  /\ (forall k, In k ks -> 0 <= post k)
  /\ (ks <> [] -> D <> 0).
Proof.
  induction ks as [|k ks IH]; intros st st' Hnd Hfresh; simpl.
  - intros [= <-]. rewrite app_nil_r. repeat split; try lia; tauto.
  - destruct (body st k) as [st1|e] eqn:Eb; simpl; [|discriminate].
    apply feeLoop_body_inv in Eb. destruct Eb as (HD & Hp & ->).
    intros Hrun. inversion Hnd as [|? ? Hk Hnd']; subst.
    unfold Obj.assign in Hrun.
    destruct (String.eqb k "__proto__") eqn:Ek; cbn [negb].
    + apply IH in Hrun; auto.
      * simpl in Hrun. destruct Hrun as (Hb & Hc & Hall & _).
        repeat split; auto; try lia.
        intros k' [<- | Hin]; auto.
      * simpl. intros k' Hin. apply Hfresh. now right.
    + apply IH in Hrun; auto.
      * simpl in Hrun. destruct Hrun as (Hb & Hc & Hall & _).
        rewrite set_fresh in Hb by (apply Hfresh; now left).
        rewrite <- app_assoc in Hb. simpl in Hb.
        repeat split; auto; try lia.
        intros k' [<- | Hin]; auto.
      * simpl. intros k' Hin. rewrite keys_set.
        destruct (in_dec string_dec k (Obj.keys (balancesAfterFees st)))
          as [Hi|Hi].
        -- apply Hfresh. now right.
        -- intros Hin'. apply in_app_or in Hin'.
           destruct Hin' as [Hin' | [<- | []]].
           ++ revert Hin'. apply Hfresh. now right.
           ++ contradiction.
Qed.

Lemma forEach_fee_total ks : forall st,
  D <> 0 -> (forall k, In k ks -> 0 <= post k) ->
  exists st', forEach body ks st = Ok st'.
Proof.
  induction ks as [|k ks IH]; intros st HD Hall; simpl.
  - eauto.
  - rewrite feeLoop_body_Ok; auto with datatypes. simpl.
    apply IH; auto with datatypes.
Qed.

(** A negative post-fee balance stops the loop. *)
Lemma forEach_fee_neg ks st k :
  In k ks -> post k < 0 -> exists e, forEach body ks st = Throw e.
Proof.
  revert st. induction ks as [|k' ks IH]; intros st Hin Hneg; [contradiction|].
  simpl. destruct (body st k') as [st1|e] eqn:Eb; simpl; [|eauto].
  destruct Hin as [-> | Hin]; [|auto].
  apply feeLoop_body_inv in Eb. lia.
Qed.

End FeeLoop.

Lemma keys_postFees deposit total balances :
  Obj.keys (postFees deposit total balances) = Obj.keys balances.
Proof.
  unfold postFees, Obj.keys. rewrite map_map. reflexivity.
Qed.

Lemma sum_postFees deposit total balances :
  sumBN (postFees deposit total balances) + feesOf deposit total balances
  = sumRaw balances.
Proof.
  unfold sumBN, feesOf, sumRaw, postFees, Obj.values.
  induction balances as [|[k v] o IH]; cbn [map fold_right fst snd];
    [reflexivity|].
  pose proof (feeTerm_afterFee deposit total (BN_new (Some v))). lia.
Qed.

(** Over a well-formed object, reading every key gives every entry. *)
Lemma map_keys_get {V B : Type} (g : string -> option V -> B) (o : Obj.t V) :
  Obj.wf o ->
  map (fun k => g k (Obj.get k o)) (Obj.keys o)
  = map (fun kv => g (fst kv) (Some (snd kv))) o.
Proof.
  intros Hwf. unfold Obj.keys. rewrite map_map.
  apply map_ext_in. intros [k v] Hin. simpl.
  now rewrite (get_In_wf k v o Hwf Hin).
Qed.

(** Over a well-formed object, reading the keys an assignment copies gives
    the entries an assignment copies. *)
Lemma map_keys_get_assignable {V B : Type} (g : string -> option V -> B)
  (o : Obj.t V) :
  Obj.wf o ->
  map (fun k => g k (Obj.get k o))
    (filter (fun k => negb (String.eqb k "__proto__")) (Obj.keys o))
  = map (fun kv => g (fst kv) (Some (snd kv))) (Obj.assignable o).
Proof.
  intros Hwf. rewrite <- keys_assignable. unfold Obj.keys. rewrite map_map.
  apply map_ext_in. intros [k v] Hin. simpl.
  apply In_assignable in Hin. destruct Hin as [Hin _].
  now rewrite (get_In_wf k v o Hwf Hin).
Qed.

(** What [getBalancesAfterFeesTree] returns on an object, when it returns:
    the fee total counts every publisher, the entries are those of the
    publishers an assignment copies. *)
Lemma getBalancesAfterFeesTree_inv balances channel m :
  Obj.wf balances ->
  getBalancesAfterFeesTree (JObject balances) channel = Ok m ->
  exists leader follower rest,
    validators (spec channel) = leader :: follower :: rest
    /\ m = Obj.set "validator"
             (feesOf (BN_new (Some (depositAmount channel)))
                (totalFee leader follower) balances)
             (postFees (BN_new (Some (depositAmount channel)))
                (totalFee leader follower) (Obj.assignable balances))
    /\ (forall k v, In (k, v) balances ->
          0 <= afterFee (BN_new (Some (depositAmount channel)))
                 (totalFee leader follower) (BN_new (Some v)))
    /\ (balances <> [] -> BN_new (Some (depositAmount channel)) <> 0).
Proof.
  intros Hwf. unfold getBalancesAfterFeesTree, validator_at.
  destruct (validators (spec channel)) as [|leader [|follower rest]];
    cbn [nth_error bind Object_keys]; try discriminate.
  unfold BN_add. fold (totalFee leader follower).
  set (T := totalFee leader follower).
  set (D := BN_new (Some (depositAmount channel))).
  destruct (forEach _ _ _) as [st|e] eqn:Eloop; cbn [bind]; [|discriminate].
  intros [= <-]. exists leader, follower, rest. split; [reflexivity|].
  apply forEach_fee_inv in Eloop; auto.
  cbv zeta in Eloop.
  cbn [balancesAfterFees currentValidatorFee Obj.empty app] in Eloop.
  destruct Eloop as (Hb & Hc & Hall & HD).
  fold D in Hb, Hc, Hall, HD.
  assert (Hpost : balancesAfterFees st = postFees D T (Obj.assignable balances)).
  { rewrite Hb. unfold postFees.
    exact (map_keys_get_assignable
             (fun k x => (k, afterFee D T (BN_new x))) balances Hwf). }
  assert (Hfees : currentValidatorFee st = feesOf D T balances).
  { rewrite Hc. unfold feesOf, Obj.values. rewrite Z.add_0_l. f_equal.
    rewrite (map_keys_get (fun k x => feeTerm D T (BN_new x)) balances Hwf).
    now rewrite map_map. }
  rewrite Hfees, Hpost. rewrite spread_wf.
  2:{ unfold Obj.wf. rewrite keys_postFees. now apply assignable_wf. }
  repeat split; auto.
  - intros k v Hin.
    specialize (Hall k (in_map fst _ _ Hin)). simpl in Hall.
    now rewrite (get_In_wf k v balances Hwf Hin) in Hall.
  - intros Hne. apply HD. destruct balances; [congruence | discriminate].
Qed.

(** When it returns. *)
Lemma getBalancesAfterFeesTree_total balances channel leader follower rest :
  validators (spec channel) = leader :: follower :: rest ->
  BN_new (Some (depositAmount channel)) <> 0 ->
  (forall k, In k (Obj.keys balances) ->
     0 <= afterFee (BN_new (Some (depositAmount channel)))
            (totalFee leader follower) (BN_new (Obj.get k balances))) ->
  exists m, getBalancesAfterFeesTree (JObject balances) channel = Ok m.
Proof.
  intros Hv HD Hall. unfold getBalancesAfterFeesTree, validator_at.
  rewrite Hv. cbn [nth_error bind Object_keys].
  destruct (forEach_fee_total balances
              (BN_add (BN_new (Some (fee leader))) (BN_new (Some (fee follower))))
              (depositAmount channel) (Obj.keys balances)
              {| currentValidatorFee := 0; balancesAfterFees := Obj.empty |}
              HD Hall) as [st Hst].
  rewrite Hst. cbn [bind]. eauto.
Qed.

(** C1, as stated, fails in two ways.  A publisher whose address is the
    string [validator] has its balance after fees replaced by the fee total.
    A publisher whose address is [__proto__] gets no entry, since the
    assignment to that key defines no property, while its fee is counted.
    In both cases the values of the result no longer add up to the raw
    balances. *)
Lemma fee_sum_broken_by_key_names :
  (exists m,
      getBalancesAfterFeesTree (JObject [("validator", AmtStr "100")])
        channel_1000_10_5 = Ok m
      /\ sumBN m = 98
      /\ sumRaw [("validator", AmtStr "100")] = 100)
  /\ (exists m,
        getBalancesAfterFeesTree
          (JObject [("A", AmtStr "100"); ("__proto__", AmtStr "200")])
          channel_1000_10_5 = Ok m
        /\ m = [("A", 2); ("validator", 295)]
        /\ sumBN m = 297
        /\ sumRaw [("A", AmtStr "100"); ("__proto__", AmtStr "200")] = 300).
Proof.
  split.
  - exists [("validator", 98)]. repeat split.
  - exists [("A", 2); ("validator", 295)]. repeat split.
Qed.

(** C1 (amended): when no publisher is called [validator] or [__proto__],
    the values of the mapping [getBalancesAfterFeesTree] returns (the
    balances after fees and the [validator] entry) add up to the raw
    balances exactly; and it does return a mapping when the deposit is
    positive and the fees and the raw balances are not negative. *)
Theorem getBalancesAfterFeesTree_sum balances channel :
  Obj.wf balances ->
  ~ In "validator" (Obj.keys balances) ->
  ~ In "__proto__" (Obj.keys balances) ->
  (forall m,
      getBalancesAfterFeesTree (JObject balances) channel = Ok m ->
      sumBN m = sumRaw balances)
  /\ (forall leader follower rest,
        validators (spec channel) = leader :: follower :: rest ->
        0 < BN_new (Some (depositAmount channel)) ->
        0 <= BN_new (Some (fee leader)) ->
        0 <= BN_new (Some (fee follower)) ->
        (forall k v, In (k, v) balances -> 0 <= BN_new (Some v)) ->
        exists m, getBalancesAfterFeesTree (JObject balances) channel = Ok m).
Proof.
  intros Hwf Hfresh Hproto. split.
  - intros m Hm.
    destruct (getBalancesAfterFeesTree_inv _ _ _ Hwf Hm)
      as (leader & follower & rest & _ & -> & _ & _).
    rewrite (assignable_id balances Hproto).
    rewrite sumBN_set_fresh by now rewrite keys_postFees.
    apply sum_postFees.
  - intros leader follower rest Hv HD Hl Hf Hraw.
    apply (getBalancesAfterFeesTree_total _ _ _ _ _ Hv); [lia|].
    intros k Hk. apply afterFee_nonneg; auto.
    + unfold totalFee. lia.
    + destruct (Obj.get k balances) as [v|] eqn:Eg.
      * apply (Hraw k v). now apply get_Some_In.
      * simpl. lia.
Qed.

Lemma getBalancesAfterFeesTree_sum_witness :
  sumBN [("A", 2); ("B", 3); ("validator", 295)]
  = sumRaw [("A", AmtStr "100"); ("B", AmtStr "200")].
Proof.
  apply (proj1 (getBalancesAfterFeesTree_sum
                  [("A", AmtStr "100"); ("B", AmtStr "200")] channel_1000_10_5
                  ltac:(repeat constructor; simpl; intuition discriminate)
                  ltac:(simpl; intuition discriminate)
                  ltac:(simpl; intuition discriminate))).
  reflexivity.
Defined.

(** C2, as stated, fails: with fees above the deposit the [validator] entry
    of the returned mapping is negative, and nothing throws. *)
Lemma validator_entry_negative :
  getBalancesAfterFeesTree (JObject [("A", AmtStr "100")]) channel_10_10_5
  = Ok [("A", 150); ("validator", -50)].
Proof. reflexivity. Qed.

(** C2 (amended): every publisher entry of the mapping
    [getBalancesAfterFeesTree] returns is at least zero, and the function
    throws when a publisher's computed balance after fees is negative; the
    [validator] entry is at least zero when the deposit is not negative, the
    total fee does not exceed it and the raw balances are not negative. *)
Theorem getBalancesAfterFeesTree_nonneg balances channel :
  Obj.wf balances ->
  (forall m,
      getBalancesAfterFeesTree (JObject balances) channel = Ok m ->
      forall k v, k <> "validator" -> Obj.get k m = Some v -> 0 <= v)
  /\ (forall leader follower rest k,
        validators (spec channel) = leader :: follower :: rest ->
        In k (Obj.keys balances) ->
        afterFee (BN_new (Some (depositAmount channel)))
          (totalFee leader follower) (BN_new (Obj.get k balances)) < 0 ->
        exists e, getBalancesAfterFeesTree (JObject balances) channel = Throw e)
  /\ (forall m leader follower rest,
        getBalancesAfterFeesTree (JObject balances) channel = Ok m ->
        validators (spec channel) = leader :: follower :: rest ->
        0 <= BN_new (Some (depositAmount channel)) ->
        totalFee leader follower <= BN_new (Some (depositAmount channel)) ->
        (forall k v, In (k, v) balances -> 0 <= BN_new (Some v)) ->
        forall v, Obj.get "validator" m = Some v -> 0 <= v).
Proof.
  intros Hwf. split; [|split].
  - intros m Hm k v Hk Hget.
    destruct (getBalancesAfterFeesTree_inv _ _ _ Hwf Hm)
      as (leader & follower & rest & _ & -> & Hall & _).
    rewrite get_set_other in Hget by congruence.
    apply get_Some_In in Hget. unfold postFees in Hget.
    apply in_map_iff in Hget. destruct Hget as ([k' x] & [= <- <-] & Hin).
    apply In_assignable in Hin. exact (Hall _ _ (proj1 Hin)).
  - intros leader follower rest k Hv Hk Hneg.
    unfold getBalancesAfterFeesTree, validator_at. rewrite Hv.
    cbn [nth_error bind Object_keys].
    destruct (forEach_fee_neg balances
                (BN_add (BN_new (Some (fee leader))) (BN_new (Some (fee follower))))
                (depositAmount channel) (Obj.keys balances)
                {| currentValidatorFee := 0; balancesAfterFees := Obj.empty |}
                k Hk Hneg) as [e He].
    rewrite He. cbn [bind]. eauto.
  - intros m leader follower rest Hm Hv HD HT Hraw v Hget.
    destruct (getBalancesAfterFeesTree_inv _ _ _ Hwf Hm)
      as (leader' & follower' & rest' & Hv' & -> & _ & HD').
    rewrite Hv in Hv'. injection Hv' as <- <- <-.
    rewrite get_set_same in Hget. injection Hget as <-.
    destruct balances as [|kv0 balances0] eqn:Eb; [unfold feesOf; simpl; lia|].
    rewrite <- Eb in *.
    assert (BN_new (Some (depositAmount channel)) <> 0)
      by (apply HD'; rewrite Eb; discriminate).
    assert (HDpos : 0 < BN_new (Some (depositAmount channel))) by lia.
    exact (feesOf_nonneg _ _ _ HDpos HT Hraw).
Qed.

Lemma getBalancesAfterFeesTree_nonneg_witness :
  getBalancesAfterFeesTree (JObject [("A", AmtStr "100"); ("B", AmtStr "200")])
    channel_1000_10_5
  = Ok [("A", 2); ("B", 3); ("validator", 295)]
  /\ 0 <= 2.
Proof.
  split; [reflexivity|].
  apply (proj1 (getBalancesAfterFeesTree_nonneg
                  [("A", AmtStr "100"); ("B", AmtStr "200")] channel_1000_10_5
                  ltac:(repeat constructor; simpl; intuition discriminate))
           [("A", 2); ("B", 3); ("validator", 295)] eq_refl "A" 2).
  - discriminate.
  - reflexivity.
Defined.

(** C10: when a publisher is called [validator], the entry of that name in
    the returned mapping is the accumulated fee total, which counts every
    publisher.  The mapping holds each key once, and its keys are those of
    the raw balances (but [__proto__], to which the assignment gives no
    entry) and no other; every entry but [validator] is the balance after
    fees of its publisher.  So the balance after fees of the publisher
    called [validator] is not in the result. *)
Theorem validator_key_overwritten balances channel m :
  Obj.wf balances ->
  In "validator" (Obj.keys balances) ->
  getBalancesAfterFeesTree (JObject balances) channel = Ok m ->
  exists leader follower rest,
    validators (spec channel) = leader :: follower :: rest
    /\ Obj.get "validator" m
       = Some (feesOf (BN_new (Some (depositAmount channel)))
                 (totalFee leader follower) balances)
    /\ Obj.wf m
    /\ Obj.keys m = Obj.keys (Obj.assignable balances)
    /\ forall k, k <> "validator" ->
         Obj.get k m
         = Obj.get k (postFees (BN_new (Some (depositAmount channel)))
                        (totalFee leader follower) (Obj.assignable balances)).
Proof.
  intros Hwf Hin Hm.
  destruct (getBalancesAfterFeesTree_inv _ _ _ Hwf Hm)
    as (leader & follower & rest & Hv & -> & _ & _).
  exists leader, follower, rest. split; [exact Hv|].
  assert (Hkeys : Obj.keys (V := BN)
                    (Obj.set "validator"
                       (feesOf (BN_new (Some (depositAmount channel)))
                          (totalFee leader follower) balances)
                       (postFees (BN_new (Some (depositAmount channel)))
                          (totalFee leader follower) (Obj.assignable balances)))
                  = Obj.keys (Obj.assignable balances)).
  { rewrite keys_set, keys_postFees.
    destruct (in_dec string_dec "validator" (Obj.keys (Obj.assignable balances)))
      as [_|Hn]; [reflexivity|].
    exfalso. apply Hn. rewrite keys_assignable. apply filter_In.
    split; [exact Hin | reflexivity]. }
  split; [|split; [|split]].
  - apply get_set_same.
  - pose proof (assignable_wf balances Hwf) as Hw.
    unfold Obj.wf in Hw |- *. now rewrite Hkeys.
  - exact Hkeys.
  - intros k Hk. apply get_set_other. congruence.
Qed.

Lemma validator_key_overwritten_witness :
  exists leader follower rest,
    validators (spec channel_1000_10_5) = leader :: follower :: rest
    /\ Obj.get "validator" [("B", 3); ("validator", 344)]
       = Some (feesOf (BN_new (Some (depositAmount channel_1000_10_5)))
                 (totalFee leader follower)
                 [("B", AmtStr "200"); ("validator", AmtStr "100");
                  ("__proto__", AmtStr "50")])
    /\ Obj.wf [("B", 3); ("validator", 344)]
    /\ Obj.keys [("B", 3); ("validator", 344)]
       = Obj.keys
           (Obj.assignable
              [("B", AmtStr "200"); ("validator", AmtStr "100");
               ("__proto__", AmtStr "50")])
    /\ forall k, k <> "validator" ->
         Obj.get k [("B", 3); ("validator", 344)]
         = Obj.get k (postFees (BN_new (Some (depositAmount channel_1000_10_5)))
                        (totalFee leader follower)
                        (Obj.assignable
                           [("B", AmtStr "200"); ("validator", AmtStr "100");
                            ("__proto__", AmtStr "50")])).
Proof.
  apply (validator_key_overwritten
           [("B", AmtStr "200"); ("validator", AmtStr "100");
            ("__proto__", AmtStr "50")] channel_1000_10_5
           [("B", 3); ("validator", 344)]).
  - repeat constructor; simpl; intuition discriminate.
  - simpl. auto.
  - reflexivity.
Defined.

(** The publisher called [validator] had 100 and would keep 2 after fees;
    the result shows the fee total under its name. *)
Example validator_key_overwritten_sample :
  getBalancesAfterFeesTree
    (JObject [("B", AmtStr "200"); ("validator", AmtStr "100")]) channel_1000_10_5
  = Ok [("B", 3); ("validator", 295)]
  /\ Obj.get "validator"
       (postFees 1000 15 [("B", AmtStr "200"); ("validator", AmtStr "100")])
     = Some 2.
Proof. split; reflexivity. Qed.

(** ** Decimal strings and big numbers *)

Lemma uint_value_acc d : forall acc,
  Z.pos (Pos.of_uint_acc d acc) = uint_value (Z.pos acc) d.
Proof.
  induction d; intros acc; cbn [Pos.of_uint_acc uint_value]; try reflexivity;
    rewrite IHd; f_equal; lia.
Qed.

Lemma uint_value_of_uint d : Z.of_uint d = uint_value 0 d.
Proof.
  unfold Z.of_uint.
  induction d; cbn [Pos.of_uint uint_value Z.of_N]; try reflexivity;
    try exact IHd; rewrite uint_value_acc; reflexivity.
Qed.

(** One digit character: what the library's reader and [parseBase] make of
    it. *)
Lemma digit_step c d :
  is_digit c = true ->
  exists d',
    uint_of_char c (Some d) = Some d'
    /\ (forall r, uint_value r d' = uint_value (r * 10 + digit_of_char c) d)
    /\ (Ascii.eqb c "0" = false -> Decimal.unorm d' = d')
    /\ Ascii.eqb c "-" = false.
Proof.
  destruct c as [[|] [|] [|] [|] [|] [|] [|] [|]];
    intros H; vm_compute in H; try discriminate H;
    eexists; (split; [reflexivity|]);
    (split; [intros r; reflexivity|]);
    (split; [|reflexivity]);
    intros E; vm_compute in E; try discriminate E; reflexivity.
Qed.

Lemma all_digits_uint s :
  all_digits s = true ->
  exists d,
    NilEmpty.uint_of_string s = Some d
    /\ forall r, parseBase r s = uint_value r d.
Proof.
  induction s as [|c s IH]; simpl.
  - intros _. exists Decimal.Nil. auto.
  - intros H. apply andb_prop in H. destruct H as [Hc Hs].
    destruct (IH Hs) as (d & Hd & Hval).
    destruct (digit_step c d Hc) as (d' & Hd' & Hstep & _ & _).
    exists d'. rewrite Hd. split; [exact Hd'|].
    intros r. now rewrite Hval, Hstep.
Qed.

Lemma is_digit_not_space c : is_digit c = true -> is_space c = false.
Proof.
  destruct c as [[|] [|] [|] [|] [|] [|] [|] [|]];
    intros H; vm_compute in H; try discriminate H; reflexivity.
Qed.

(** A digit string holds no white space. *)
Lemma strip_spaces_digits s : all_digits s = true -> strip_spaces s = s.
Proof.
  induction s as [|c s IH]; simpl; [reflexivity|].
  intros H. apply andb_prop in H. destruct H as [Hc Hs].
  rewrite (is_digit_not_space c Hc). now rewrite IH.
Qed.

(** A digit string is read as the number it writes. *)
Lemma BN_of_string_digits s d :
  all_digits s = true ->
  NilEmpty.uint_of_string s = Some d ->
  BN_of_string s = Z.of_uint d.
Proof.
  intros Hs Hd. rewrite uint_value_of_uint.
  destruct (all_digits_uint s Hs) as (d0 & Hd0 & Hval).
  rewrite Hd in Hd0. injection Hd0 as <-.
  rewrite <- Hval.
  destruct s as [|c s]; [reflexivity|].
  pose proof Hs as Hs'.
  simpl in Hs. apply andb_prop in Hs. destruct Hs as [Hc _].
  destruct (digit_step c Decimal.Nil Hc) as (_ & _ & _ & _ & Hminus).
  unfold BN_of_string. rewrite (strip_spaces_digits (String c s) Hs').
  cbv zeta.
  destruct c as [[|] [|] [|] [|] [|] [|] [|] [|]];
    try reflexivity; vm_compute in Hminus; discriminate Hminus.
Qed.

Lemma canonical_unorm s :
  is_canonical_decimal s = true ->
  exists d,
    NilZero.uint_of_string s = Some d
    /\ NilEmpty.uint_of_string s = Some d
    /\ Decimal.unorm d = d
    /\ all_digits s = true.
Proof.
  destruct s as [|c s]; [discriminate|].
  unfold is_canonical_decimal. intros H.
  apply andb_prop in H. destruct H as [Hall Hlead].
  pose proof Hall as Hall'. simpl in Hall'.
  apply andb_prop in Hall'. destruct Hall' as [Hc Hs].
  destruct (all_digits_uint s Hs) as (d & Hd & _).
  destruct (digit_step c d Hc) as (d' & Hd' & _ & Hnorm & _).
  exists d'. simpl. rewrite Hd. repeat split; auto.
  apply orb_prop in Hlead. destruct Hlead as [Hnz | Hempty].
  - apply Hnorm. now apply negb_true_iff.
  - apply String.eqb_eq in Hempty. subst s. simpl in Hd.
    injection Hd as <-.
    destruct (Ascii.eqb c "0") eqn:E; [|auto].
    apply Ascii.eqb_eq in E. subst c. simpl in Hd'.
    injection Hd' as <-. reflexivity.
Qed.

(** The round trip of one amount. *)
Lemma BN_toString_of_string s :
  is_canonical_decimal s = true -> BN_toString (BN_of_string s) = s.
Proof.
  intros H. destruct (canonical_unorm s H) as (d & Hz & He & Hn & Hall).
  rewrite (BN_of_string_digits s d Hall He).
  unfold BN_toString.
  change (Z.of_uint d) with (Z.of_int (Decimal.Pos d)).
  rewrite DecimalZ.to_of. simpl. rewrite Hn.
  now apply NilZero.sus.
Qed.

(** ** The map conversions *)

(** Assigning the entries of a well-formed object, through [f], to an
    object gives the entries an assignment copies, in order, with [f]
    applied to the values. *)
Lemma fold_assign_map {A B : Type} (f : A -> B) (o : Obj.t A) :
  forall acc : Obj.t B,
  NoDup (Obj.keys acc ++ Obj.keys o) ->
  fold_left
    (fun balances entry => let '(k, v) := entry in Obj.assign k (f v) balances)
    o acc
  = acc ++ map (fun kv => (fst kv, f (snd kv))) (Obj.assignable o).
Proof.
  induction o as [|[k v] o IH]; intros acc Hnd; simpl.
  - now rewrite app_nil_r.
  - simpl in Hnd.
    assert (Hk : ~ In k (Obj.keys acc)).
    { apply NoDup_remove_2 in Hnd. intros Hin. apply Hnd.
      apply in_or_app. now left. }
    assert (Hrest : NoDup (Obj.keys acc ++ Obj.keys o))
      by (eapply NoDup_remove_1; exact Hnd).
    unfold Obj.assign. destruct (String.eqb k "__proto__"); cbn [negb].
    + now apply IH.
    + rewrite (set_fresh k (f v) acc Hk), IH.
      * now rewrite <- app_assoc.
      * unfold Obj.keys in *. rewrite map_app. simpl.
        rewrite <- app_assoc. exact Hnd.
Qed.

Section ToBNMapLoop.

Local Abbreviation body :=
  (fun (balances : Obj.t BN) (entry : string * rawAmount) =>
     let '(acc, bal) := entry in
     do n <- BN_of_raw bal; Ok (Obj.assign acc n balances)).

(** An object passes the assertion of [toBNMap]. *)
Lemma toBNMap_JObject o :
  toBNMap (JObject o) = do balances <- forEach body o Obj.empty; Ok balances.
Proof. reflexivity. Qed.

(** The loop of [toBNMap] ends by an exception exactly when [new BN]
    refuses a value, and the exception is the assertion of bn.js. *)
Lemma toBNMap_loop_throw o : forall acc e,
  forEach body o acc = Throw e ->
  e = BNAssertion /\ exists k v, In (k, v) o /\ BN_of_raw v = Throw BNAssertion.
Proof.
  induction o as [|[k v] o IH]; intros acc e; simpl; [discriminate|].
  destruct (BN_of_raw v) as [n|e'] eqn:Ev; cbn [bind].
  - intros Hrun. apply IH in Hrun. destruct Hrun as (-> & k' & v' & Hin & Hv).
    split; [reflexivity|]. exists k', v'. auto.
  - intros [= <-].
    assert (e' = BNAssertion) as ->.
    { destruct v as [s0|n0|]; unfold BN_of_raw in Ev.
      - discriminate Ev.
      - destruct (Z.abs n0 <? 2 ^ 53); [discriminate Ev | now injection Ev].
      - now injection Ev. }
    split; [reflexivity|]. exists k, v. auto.
Qed.

Lemma toBNMap_loop_Ok o : forall acc m,
  forEach body o acc = Ok m ->
  forall k v, In (k, v) o -> exists n, BN_of_raw v = Ok n.
Proof.
  induction o as [|[k v] o IH]; intros acc m; simpl; [tauto|].
  destruct (BN_of_raw v) as [n|e'] eqn:Ev; cbn [bind]; [|discriminate].
  intros Hrun k' v' [[= <- <-] | Hin]; [eauto|].
  exact (IH _ _ Hrun k' v' Hin).
Qed.

(** When [new BN] reads every value, as [g], the loop assigns them all. *)
Lemma toBNMap_loop_all (g : rawAmount -> BN) o :
  (forall k v, In (k, v) o -> BN_of_raw v = Ok (g v)) ->
  forall acc,
    forEach body o acc
    = Ok (fold_left
            (fun balances entry =>
               let '(k, v) := entry in Obj.assign k (g v) balances)
            o acc).
Proof.
  induction o as [|[k v] o IH]; intros Hall acc; simpl; [reflexivity|].
  rewrite (Hall k v (or_introl eq_refl)). cbn [bind].
  apply IH. intros k' v' Hin. apply (Hall k' v'). now right.
Qed.

(** On an object, [toBNMap] returns exactly when [new BN] accepts every
    value; what it throws otherwise is the assertion of bn.js. *)
Lemma toBNMap_object_cases (o : Obj.t rawAmount) :
  ((exists m, toBNMap (JObject o) = Ok m)
   <-> (forall k v, In (k, v) o -> exists n, BN_of_raw v = Ok n))
  /\ (forall e, toBNMap (JObject o) = Throw e -> e = BNAssertion).
Proof.
  rewrite toBNMap_JObject.
  destruct (forEach _ o Obj.empty) as [m|e] eqn:Eloop; cbn [bind].
  - split; [|discriminate]. split; [|eauto].
    intros _. exact (toBNMap_loop_Ok _ _ _ Eloop).
  - apply toBNMap_loop_throw in Eloop.
    destruct Eloop as (-> & k & v & Hin & Hv).
    split; [|now intros e [= <-]]. split.
    + intros [m Hm]. discriminate Hm.
    + intros Hall. destruct (Hall k v Hin) as [n Hn]. congruence.
Qed.

End ToBNMapLoop.

(** [toBNMap] on a map of strings. *)
Lemma toBNMap_object (raw : Obj.t string) :
  Obj.wf raw ->
  toBNMap (JObject (rawStrings raw))
  = Ok (map (fun kv => (fst kv, BN_of_string (snd kv))) (Obj.assignable raw)).
Proof.
  intros Hwf. rewrite toBNMap_JObject.
  rewrite (toBNMap_loop_all
             (fun v => match v with RawStr s => BN_of_string s | _ => 0 end)).
  2:{ intros k v Hin. unfold rawStrings in Hin. apply in_map_iff in Hin.
      destruct Hin as ([k' s'] & [= <- <-] & _). reflexivity. }
  cbn [bind]. apply f_equal.
  rewrite fold_assign_map.
  2:{ unfold rawStrings, Obj.keys. simpl. rewrite map_map. exact Hwf. }
  simpl. unfold rawStrings, Obj.assignable.
  induction raw as [|[k s] raw IH]; simpl; [reflexivity|].
  assert (Hwf' : Obj.wf raw) by (inversion Hwf; assumption).
  destruct (String.eqb k "__proto__"); simpl; now rewrite IH.
Qed.

Lemma toBNStringMap_object (raw : Obj.t BN) :
  Obj.wf raw ->
  toBNStringMap (JObject raw)
  = Ok (map (fun kv => (fst kv, BN_toString (snd kv))) (Obj.assignable raw)).
Proof.
  intros Hwf. unfold toBNStringMap. cbn -[fold_left BN_toString].
  unfold Obj.entries.
  now rewrite (fold_assign_map BN_toString raw Obj.empty).
Qed.

(** C3, as stated, fails: an empty mapping is accepted, by [toBNMap] and by
    the fee distribution, and [getBalancesAfterFeesTree], which does not
    look at the type of its argument, accepts a number as well. *)
Lemma empty_mapping_and_number_accepted :
  toBNMap (JObject []) = Ok []
  /\ getBalancesAfterFeesTree (JObject []) channel_1000_10_5
     = Ok [("validator", 0)]
  /\ getBalancesAfterFeesTree (JNumber 5) channel_1000_10_5
     = Ok [("validator", 0)].
Proof. repeat split. Qed.

(** C3 (amended): [toBNMap] throws its assertion error on every input that
    is not an object (undefined, null, a boolean, a number, a string); on an
    object it returns a mapping exactly when [new BN] accepts every value,
    and throws the assertion of bn.js otherwise; it returns the empty
    mapping on the empty mapping.  [getBalancesAfterFeesTree] has no such
    guard: for a channel with two validators it throws, a TypeError, on
    undefined and null only, and returns the mapping with the single entry
    [validator] of amount zero on a boolean, a number, the empty string and
    the empty mapping. *)
Theorem fee_distribution_guard :
  (forall raw : jsval rawAmount,
      match raw with
      | JObject o =>
          ((exists m, toBNMap raw = Ok m)
           <-> (forall k v, In (k, v) o -> exists n, BN_of_raw v = Ok n))
          /\ (forall e, toBNMap raw = Throw e -> e = BNAssertion)
      | _ => toBNMap raw = Throw (AssertionError "raw map is a valid object")
      end)
  /\ toBNMap (JObject []) = Ok []
  /\ (forall channel leader follower rest,
        validators (spec channel) = leader :: follower :: rest ->
        getBalancesAfterFeesTree JUndefined channel = Throw TypeError
        /\ getBalancesAfterFeesTree JNull channel = Throw TypeError
        /\ (forall b,
              getBalancesAfterFeesTree (JBoolean b) channel
              = Ok [("validator", 0)])
        /\ (forall n,
              getBalancesAfterFeesTree (JNumber n) channel
              = Ok [("validator", 0)])
        /\ getBalancesAfterFeesTree (JString "") channel = Ok [("validator", 0)]
        /\ getBalancesAfterFeesTree (JObject []) channel
           = Ok [("validator", 0)]).
Proof.
  split; [|split].
  - intros [ | | [|] | n | s | o]; try reflexivity.
    + unfold toBNMap. simpl. destruct (n =? 0); reflexivity.
    + unfold toBNMap. simpl. destruct (String.eqb s ""); reflexivity.
    + apply toBNMap_object_cases.
  - reflexivity.
  - intros channel leader follower rest Hv.
    unfold getBalancesAfterFeesTree, validator_at. rewrite Hv.
    repeat split.
Qed.

Lemma fee_distribution_guard_witness :
  getBalancesAfterFeesTree JUndefined channel_1000_10_5 = Throw TypeError
  /\ getBalancesAfterFeesTree JNull channel_1000_10_5 = Throw TypeError
  /\ (forall b,
        getBalancesAfterFeesTree (JBoolean b) channel_1000_10_5
        = Ok [("validator", 0)])
  /\ (forall n,
        getBalancesAfterFeesTree (JNumber n) channel_1000_10_5
        = Ok [("validator", 0)])
  /\ getBalancesAfterFeesTree (JString "") channel_1000_10_5
     = Ok [("validator", 0)]
  /\ getBalancesAfterFeesTree (JObject []) channel_1000_10_5
     = Ok [("validator", 0)].
Proof.
  apply (proj2 (proj2 fee_distribution_guard) channel_1000_10_5
           sampleLeader sampleFollower []).
  reflexivity.
Defined.

(** What the two functions make of other inputs: a string of digits is
    taken by [getBalancesAfterFeesTree] character by character, and
    [toBNMap] stops at a value that is an object or a number of 2^53 or
    more. *)
Example fee_distribution_inputs :
  getBalancesAfterFeesTree (JString "12") channel_1000_10_5
  = Ok [("0", 1); ("1", 1); ("validator", 1)]
  /\ toBNMap (JObject [("a", RawStr "1"); ("b", RawObject)]) = Throw BNAssertion
  /\ toBNMap (JObject [("a", RawNum (10 ^ 21))]) = Throw BNAssertion
  /\ toBNMap (JObject [("a", RawNum 5); ("b", RawStr " 12")])
     = Ok [("a", 5); ("b", 12)].
Proof. repeat split. Qed.

(** C9, as stated, fails in two ways: a decimal string with leading zeros
    comes back without them, and an entry whose key is [__proto__] does not
    come back at all, since the assignment to that key defines no
    property. *)
Lemma roundtrip_loses_zeros_and_proto :
  (is_decimal "007" = true
   /\ toBNMap (JObject [("a", RawStr "007")]) = Ok [("a", 7)]
   /\ toBNStringMap (JObject [("a", 7)]) = Ok [("a", "7")])
  /\ (is_decimal "5" = true
      /\ toBNMap (JObject [("__proto__", RawStr "5")]) = Ok []
      /\ toBNStringMap (JObject []) = Ok []).
Proof. repeat split. Qed.

(** C9 (amended): for every mapping that has no key [__proto__] and whose
    values are base-10 strings without superfluous leading zeros, [toBNMap]
    followed by [toBNStringMap] returns the mapping itself. *)
Theorem toBNMap_toBNStringMap_roundtrip (raw : Obj.t string) :
  Obj.wf raw ->
  ~ In "__proto__" (Obj.keys raw) ->
  (forall k s, In (k, s) raw -> is_canonical_decimal s = true) ->
  exists m,
    toBNMap (JObject (rawStrings raw)) = Ok m
    /\ toBNStringMap (JObject m) = Ok raw.
Proof.
  intros Hwf Hproto Hcanon.
  exists (map (fun kv => (fst kv, BN_of_string (snd kv))) raw).
  split.
  { rewrite toBNMap_object by exact Hwf. now rewrite assignable_id. }
  rewrite toBNStringMap_object.
  2:{ unfold Obj.wf, Obj.keys. rewrite map_map. exact Hwf. }
  rewrite assignable_id.
  2:{ unfold Obj.keys. rewrite map_map. exact Hproto. }
  apply f_equal. rewrite map_map. rewrite <- (map_id raw) at 2.
  apply map_ext_in. intros [k s] Hin. simpl.
  now rewrite (BN_toString_of_string s (Hcanon k s Hin)).
Qed.

Lemma toBNMap_toBNStringMap_roundtrip_witness :
  exists m,
    toBNMap
      (JObject
         (rawStrings
            [("a", "1000"); ("b", "0");
             ("c", "340282366920938463463374607431768211456")])) = Ok m
    /\ toBNStringMap (JObject m)
       = Ok [("a", "1000"); ("b", "0");
             ("c", "340282366920938463463374607431768211456")].
Proof.
  apply (toBNMap_toBNStringMap_roundtrip
           [("a", "1000"); ("b", "0");
            ("c", "340282366920938463463374607431768211456")]).
  - repeat constructor; simpl; intuition discriminate.
  - simpl. intuition discriminate.
  - intros k s [H | [H | [H | []]]]; injection H as <- <-; reflexivity.
Defined.

(** ** The state root *)

(** C4: [isValidRootHash] answers [true] exactly when the claimed root is
    the root [getStateRootHash] computes for the same channel, balances and
    adapter: the two strings are equal character for character. *)
Theorem isValidRootHash_iff (leaderRootHash : string) (args : RootHashArgs) :
  isValidRootHash leaderRootHash args = true
  <-> leaderRootHash
      = getStateRootHash (args_channel args) (args_balancesAfterFees args)
          (args_adapter args).
Proof.
  unfold isValidRootHash. rewrite String.eqb_eq. split; congruence.
Qed.

(** *** Canonical leaf sequences *)

Section NormalizeFacts.
Context {A : Type} (cmp : A -> A -> comparison).
Hypothesis cmp_eq : forall x y, cmp x y = Eq <-> x = y.
Hypothesis cmp_antisym : forall x y, cmp y x = CompOpp (cmp x y).
Hypothesis cmp_trans : forall x y z, cmp x y = Lt -> cmp y z = Lt -> cmp x z = Lt.

Local Abbreviation lt := (before cmp).

Lemma lt_irrefl x : ~ lt x x.
Proof.
  unfold before. rewrite (proj2 (cmp_eq x x) eq_refl). discriminate.
Qed.

Lemma seen_spec x seen :
  existsb (fun y => match cmp x y with Eq => true | _ => false end) seen = true
  <-> In x seen.
Proof.
  rewrite existsb_exists. split.
  - intros (y & Hin & Hc). destruct (cmp x y) eqn:E; try discriminate.
    apply cmp_eq in E. now subst.
  - intros Hin. exists x. split; [exact Hin|].
    now rewrite (proj2 (cmp_eq x x) eq_refl).
Qed.

Lemma In_dedup l : forall seen z,
  In z (dedup cmp seen l) <-> In z l /\ ~ In z seen.
Proof.
  induction l as [|x l IH]; intros seen z; simpl; [tauto|].
  destruct (existsb _ seen) eqn:E.
  - apply seen_spec in E. rewrite IH. split.
    + tauto.
    + intros [[-> | Hin] Hn]; tauto.
  - assert (Hx : ~ In x seen).
    { intros Hin. apply seen_spec in Hin. congruence. }
    simpl. rewrite IH. simpl. split.
    + intros [-> | [Hin Hn]]; [tauto|]. split; [tauto|]. intros Hs. apply Hn. now right.
    + intros [[-> | Hin] Hn]; [now left|].
      destruct (cmp x z) eqn:Ec.
      * left. now apply cmp_eq.
      * right. split; [exact Hin|]. simpl. intros [Hxz | Hs]; [|tauto].
        subst. rewrite (proj2 (cmp_eq z z) eq_refl) in Ec. discriminate.
      * right. split; [exact Hin|]. simpl. intros [Hxz | Hs]; [|tauto].
        subst. rewrite (proj2 (cmp_eq z z) eq_refl) in Ec. discriminate.
Qed.

Lemma NoDup_dedup l : forall seen, NoDup (dedup cmp seen l).
Proof.
  induction l as [|x l IH]; intros seen; simpl; [constructor|].
  destruct (existsb _ seen); [apply IH|].
  constructor; [|apply IH].
  rewrite In_dedup. simpl. tauto.
Qed.

Lemma In_insert_sorted x l z :
  In z (insert_sorted cmp x l) <-> z = x \/ In z l.
Proof.
  induction l as [|y l IH]; simpl.
  - intuition.
  - destruct (cmp x y); simpl; rewrite ?IH; intuition.
Qed.

Lemma In_sort l z : In z (sort cmp l) <-> In z l.
Proof.
  unfold sort. induction l as [|x l IH]; simpl; [tauto|].
  rewrite In_insert_sorted, IH. intuition.
Qed.

Lemma insert_sorted_sorted x l :
  StronglySorted lt l -> ~ In x l -> StronglySorted lt (insert_sorted cmp x l).
Proof.
  induction l as [|y l IH]; intros Hs Hn; simpl.
  - repeat constructor.
  - inversion Hs as [|? ? Hs' Hall]; subst.
    destruct (cmp x y) eqn:E.
    + apply cmp_eq in E. subst. exfalso. apply Hn. now left.
    + constructor; [exact Hs|].
      constructor; [exact E|].
      rewrite Forall_forall in *. intros z Hz.
      apply (cmp_trans x y z E). now apply Hall.
    + constructor.
      * apply IH; [exact Hs'|]. intros Hin. apply Hn. now right.
      * rewrite Forall_forall in *. intros z Hz.
        apply In_insert_sorted in Hz. destruct Hz as [-> | Hz].
        -- unfold lt. rewrite cmp_antisym, E. reflexivity.
        -- now apply Hall.
Qed.

Lemma sort_sorted l : NoDup l -> StronglySorted lt (sort cmp l).
Proof.
  unfold sort. induction 1 as [|x l Hn Hnd IH]; simpl.
  - constructor.
  - apply insert_sorted_sorted; [exact IH|].
    fold (sort cmp l). now rewrite In_sort.
Qed.

(** A strictly sorted sequence is determined by its elements. *)
Lemma sorted_unique l1 : forall l2,
  StronglySorted lt l1 -> StronglySorted lt l2 ->
  (forall z, In z l1 <-> In z l2) -> l1 = l2.
Proof.
  induction l1 as [|x l1 IH]; intros [|y l2] H1 H2 Hiff.
  - reflexivity.
  - exfalso. apply (proj2 (Hiff y)). now left.
  - exfalso. apply (proj1 (Hiff x)). now left.
  - inversion H1 as [|? ? H1' Hall1]; subst.
    inversion H2 as [|? ? H2' Hall2]; subst.
    rewrite Forall_forall in Hall1, Hall2.
    assert (Hxy : x = y).
    { destruct (proj1 (Hiff x) (or_introl eq_refl)) as [Hy | Hx]; [now symmetry|].
      destruct (proj2 (Hiff y) (or_introl eq_refl)) as [Hx' | Hy']; [exact Hx'|].
      exfalso. apply (lt_irrefl x).
      apply (cmp_trans x y x); [now apply Hall1 | now apply Hall2]. }
    subst y. f_equal. apply IH; auto.
    intros z. split; intros Hz.
    + destruct (proj1 (Hiff z) (or_intror Hz)) as [Hx | Hz2]; [|exact Hz2].
      subst z. exfalso. apply (lt_irrefl x). now apply Hall1.
    + destruct (proj2 (Hiff z) (or_intror Hz)) as [Hx | Hz1]; [|exact Hz1].
      subst z. exfalso. apply (lt_irrefl x). now apply Hall2.
Qed.

Lemma sort_dedup_canonical l1 l2 :
  (forall z, In z l1 <-> In z l2) ->
  sort cmp (dedup cmp [] l1) = sort cmp (dedup cmp [] l2).
Proof.
  intros Hiff. apply sorted_unique.
  - apply sort_sorted, NoDup_dedup.
  - apply sort_sorted, NoDup_dedup.
  - intros z. rewrite !In_sort, !In_dedup. simpl. specialize (Hiff z). tauto.
Qed.

End NormalizeFacts.

Lemma byte_compare_eq x y : byte_compare x y = Eq <-> x = y.
Proof.
  unfold byte_compare. rewrite N.compare_eq_iff. split; [|congruence].
  intros H. pose proof (Byte.of_to_N x) as Hx. pose proof (Byte.of_to_N y) as Hy.
  rewrite H in Hx. congruence.
Qed.

Lemma byte_compare_antisym x y : byte_compare y x = CompOpp (byte_compare x y).
Proof. unfold byte_compare. apply N.compare_antisym. Qed.

Lemma byte_compare_trans x y z c :
  byte_compare x y = c -> byte_compare y z = c -> byte_compare x z = c.
Proof.
  unfold byte_compare. destruct c; intros H1 H2.
  - apply N.compare_eq_iff in H1, H2. apply N.compare_eq_iff. congruence.
  - exact (N.lt_trans _ _ _ H1 H2).
  - change (Byte.to_N x > Byte.to_N y)%N in H1.
    change (Byte.to_N y > Byte.to_N z)%N in H2.
    change (Byte.to_N x > Byte.to_N z)%N.
    apply N.gt_lt_iff in H1, H2. apply N.gt_lt_iff.
    exact (N.lt_trans _ _ _ H2 H1).
Qed.

(** The canonical tree depends on the set of leaves only. *)
Lemma MerkleTree_canonical_set l1 l2 :
  (forall z, In z l1 <-> In z l2) ->
  MerkleTree_canonical l1 = MerkleTree_canonical l2.
Proof.
  unfold MerkleTree_canonical, Buffer_compare.
  apply sort_dedup_canonical.
  - apply list_compare_refl, byte_compare_eq.
  - intros x y. apply list_compare_antisym;
      [apply byte_compare_eq | apply byte_compare_antisym].
  - intros x y z. apply list_compare_trans;
      [apply byte_compare_eq | apply byte_compare_trans | apply byte_compare_antisym].
Qed.

(** Two enumeration orders of one object are the same map. *)
Lemma Permutation_same_map {V : Type} (a b : Obj.t V) :
  Obj.wf a -> Permutation a b -> same_map a b.
Proof.
  intros Hwf Hperm k.
  assert (Hwfb : Obj.wf b).
  { unfold Obj.wf, Obj.keys in *.
    eapply Permutation_NoDup; [|exact Hwf]. now apply Permutation_map. }
  destruct (Obj.get k a) as [v|] eqn:Ea.
  - symmetry. apply get_In_wf; [exact Hwfb|].
    eapply Permutation_in; [exact Hperm|]. now apply get_Some_In.
  - symmetry. apply get_None_iff. apply get_None_iff in Ea.
    intros Hin. apply Ea. unfold Obj.keys in *.
    eapply Permutation_in; [|exact Hin].
    apply Permutation_map. now apply Permutation_sym.
Qed.

(** C5: with a Merkle tree that deduplicates and sorts its leaves, the state
    root is the same for any two property lists that are the same map,
    whatever the order of their keys: it depends on the channel identifier
    and on the set of (address, amount) pairs only. *)
Theorem getStateRootHash_order_independent
  (leaf : string -> option BN -> Buffer)
  (digest : list Buffer -> Buffer)
  (commit : Buffer -> Buffer -> Buffer)
  (channel : Channel) (b1 b2 : Obj.t BN) :
  same_map b1 b2 ->
  getStateRootHash channel b1 (canonicalAdapter leaf digest commit)
  = getStateRootHash channel b2 (canonicalAdapter leaf digest commit).
Proof.
  intros Hsame. unfold getStateRootHash. simpl.
  do 3 f_equal. apply MerkleTree_canonical_set.
  assert (Hkeys : forall a b : Obj.t BN, same_map a b ->
            forall z,
              In z (map (fun acc => leaf acc (Obj.get acc a)) (Obj.keys a)) ->
              In z (map (fun acc => leaf acc (Obj.get acc b)) (Obj.keys b))).
  { intros a b Hab z Hz. apply in_map_iff in Hz. destruct Hz as (k & <- & Hk).
    apply in_map_iff. exists k. rewrite (Hab k). split; [reflexivity|].
    destruct (in_dec string_dec k (Obj.keys b)) as [Hin | Hn]; [exact Hin|].
    exfalso. apply get_None_iff in Hn. rewrite <- (Hab k) in Hn.
    apply get_None_iff in Hn. contradiction. }
  intros z. split; apply Hkeys; [exact Hsame|].
  intros k. symmetry. apply Hsame.
Qed.

Lemma getStateRootHash_order_independent_witness :
  getStateRootHash channel_1000_10_5 [("b", 3); ("a", 2)] sampleAdapter
  = getStateRootHash channel_1000_10_5 [("a", 2); ("b", 3)] sampleAdapter.
Proof.
  apply (getStateRootHash_order_independent _ _ _ channel_1000_10_5
           [("b", 3); ("a", 2)] [("a", 2); ("b", 3)]).
  apply Permutation_same_map.
  - repeat constructor; simpl; intuition discriminate.
  - apply perm_swap.
Defined.

Example state_root_sample :
  getStateRootHash channel_1000_10_5 [("b", 3); ("a", 2)] sampleAdapter
  = "6368616e6e656c61326233".
Proof. reflexivity. Qed.

(** ** The rejection record *)

(** C6: the record [invalidNewState] hands to [persist] has the type
    [InvalidNewState] whatever the type of [newMsg] was, has the given
    reason, and has every other field of [newMsg] as it was. *)
Theorem invalidNewState_record
  (channel : Channel) (adapter : Adapter) (reason : jsval rawAmount)
  (newMsg : Message) :
  Obj.wf newMsg ->
  exists record : Message,
    (forall (R : Type) (persist : Adapter -> Channel -> Message -> R),
        invalidNewState persist channel adapter reason newMsg
        = persist adapter channel record)
    /\ Obj.get "type" record = Some (JString "InvalidNewState")
    /\ Obj.get "reason" record = Some reason
    /\ (forall k, k <> "type" -> k <> "reason" ->
          Obj.get k record = Obj.get k newMsg).
Proof.
  intros Hwf.
  exists (Obj.set "reason" reason
            (Obj.set "type" (JString "InvalidNewState") (Obj.spread newMsg))).
  split; [reflexivity|]. rewrite (spread_wf newMsg Hwf). split; [|split].
  - rewrite get_set_other by discriminate. apply get_set_same.
  - apply get_set_same.
  - intros k Ht Hr. rewrite !get_set_other by congruence. reflexivity.
Qed.

Lemma invalidNewState_record_witness :
  exists record : Message,
    (forall (R : Type) (persist : Adapter -> Channel -> Message -> R),
        invalidNewState persist channel_1000_10_5 sampleAdapter
          (JString "InvalidRootHash") sampleNewState
        = persist sampleAdapter channel_1000_10_5 record)
    /\ Obj.get "type" record = Some (JString "InvalidNewState")
    /\ Obj.get "reason" record = Some (JString "InvalidRootHash")
    /\ (forall k, k <> "type" -> k <> "reason" ->
          Obj.get k record = Obj.get k sampleNewState).
Proof.
  apply (invalidNewState_record channel_1000_10_5 sampleAdapter
           (JString "InvalidRootHash") sampleNewState).
  repeat constructor; simpl; intuition discriminate.
Defined.

Example invalidNewState_sample :
  invalidNewState (fun _ _ record => record) channel_1000_10_5 sampleAdapter
    (JString "InvalidRootHash") sampleNewState
  = [("type", JString "InvalidNewState");
     ("stateRoot", JString "6368616e6e656c61326233");
     ("balances", JObject [("a", RawStr "2"); ("b", RawStr "3")]);
     ("signature", JString "sig");
     ("reason", JString "InvalidRootHash")].
Proof. reflexivity. Qed.

(** ** The last approved pair *)

Lemma field_is_spec field value m :
  field_is field value m = true <-> Obj.get field m = value.
Proof.
  unfold field_is.
  destruct (Obj.get field m) as [a|], value as [b|];
    try (split; [discriminate | congruence]); [|tauto].
  destruct (jsval_eq_dec a b) as [-> | Hne]; split; try congruence; auto.
Qed.

Lemma approveState_query_spec channel follower d :
  approveState_query channel follower d = true
  <-> channelId d = id channel
      /\ from d = validator_id follower
      /\ Obj.get "type" (msg d) = Some (JString "ApproveState").
Proof.
  unfold approveState_query.
  rewrite !andb_true_iff, !String.eqb_eq, field_is_spec. tauto.
Qed.

Lemma newState_query_spec channel leader approveState d :
  newState_query channel leader approveState d = true
  <-> channelId d = id channel
      /\ from d = validator_id leader
      /\ Obj.get "type" (msg d) = Some (JString "NewState")
      /\ Obj.get "stateRoot" (msg d) = Obj.get "stateRoot" (proj_msg approveState).
Proof.
  unfold newState_query.
  rewrite !andb_true_iff, !String.eqb_eq, !field_is_spec. tauto.
Qed.

Lemma In_insert_received_desc d l x :
  In x (insert_received_desc d l) <-> x = d \/ In x l.
Proof.
  induction l as [|e l IH]; simpl.
  - intuition.
  - destruct (received e <=? received d); simpl; rewrite ?IH; intuition.
Qed.

Lemma In_sort_received_desc l x : In x (sort_received_desc l) <-> In x l.
Proof.
  unfold sort_received_desc. induction l as [|d l IH]; simpl; [tauto|].
  rewrite In_insert_received_desc, IH. intuition.
Qed.

(** The first document of the sorted sequence is a most recent one. *)
Lemma sort_received_desc_head l a rest :
  sort_received_desc l = a :: rest ->
  forall d, In d l -> received d <= received a.
Proof.
  revert a rest. unfold sort_received_desc.
  induction l as [|x l IH]; intros a rest; simpl; [discriminate|].
  fold (sort_received_desc l).
  destruct (sort_received_desc l) as [|e srt] eqn:Es; simpl.
  - intros [= <- <-] d [<- | Hin]; [lia|].
    apply In_sort_received_desc in Hin. rewrite Es in Hin. contradiction.
  - specialize (IH e srt Es).
    destruct (received e <=? received x) eqn:E.
    + apply Z.leb_le in E. intros [= <- <-] d [<- | Hin]; [lia|].
      specialize (IH d Hin). lia.
    + apply Z.leb_gt in E. intros [= <- <-] d [<- | Hin]; [lia|].
      exact (IH d Hin).
Qed.


Example retrieveLastApproved_sample :
  retrieveLastApproved channel_1000_10_5 sampleCollection
  = Ok (Some {| newState :=
                  {| proj_from := "leader"; proj_msg := sampleNewState;
                     proj_received := 1000 |};
                approveState :=
                  {| proj_from := "follower"; proj_msg := sampleApproveState;
                     proj_received := 1001 |} |}).
Proof. reflexivity. Qed.

Example retrieveLastApproved_no_proposal :
  retrieveLastApproved channel_1000_10_5 (tl sampleCollection) = Ok None.
Proof. reflexivity. Qed.


(** ** Posting validator messages *)

Section MapIdx.
Context {A B : Type} (f : A -> Z -> B).

Lemma map_idx_length l : forall idx, length (map_idx f idx l) = length l.
Proof. induction l; intros idx; simpl; auto. Qed.

Lemma map_idx_nth l : forall idx i,
  nth_error (map_idx f idx l) i
  = option_map (fun x => f x (idx + Z.of_nat i)) (nth_error l i).
Proof.
  induction l as [|x l IH]; intros idx [|i]; simpl; try reflexivity.
  - now rewrite Z.add_0_r.
  - rewrite IH. destruct (nth_error l i); simpl; [|reflexivity].
    do 2 f_equal. lia.
Qed.

Lemma map_idx_map (g : B -> A) l : forall idx,
  (forall x i, g (f x i) = x) -> map g (map_idx f idx l) = l.
Proof.
  induction l as [|x l IH]; intros idx Hg; simpl; [reflexivity|].
  now rewrite Hg, IH.
Qed.
End MapIdx.

Lemma NoDup_nth_lt (l : list Z) :
  (forall i j x y, (i < j)%nat ->
     nth_error l i = Some x -> nth_error l j = Some y -> x < y) ->
  NoDup l.
Proof.
  intros Hlt. apply NoDup_nth_error. intros i j Hi Heq.
  destruct (nth_error l i) as [x|] eqn:Ei.
  2:{ apply nth_error_None in Ei. lia. }
  symmetry in Heq.
  destruct (Nat.lt_trichotomy i j) as [Hij | [Hij | Hij]]; [|exact Hij|].
  - pose proof (Hlt i j x x Hij Ei Heq). lia.
  - pose proof (Hlt j i x x Hij Heq Ei). lia.
Qed.

(** C8, as stated, fails: two batches posted to one channel a millisecond
    apart store two records with the same [received] value. *)
Lemma received_repeated_across_batches :
  let req1 := {| req_channel := channel_1000_10_5; session_uid := "leader";
                 body_messages := [sampleNewState; sampleNewState] |} in
  let req2 := {| req_channel := channel_1000_10_5; session_uid := "follower";
                 body_messages := [sampleApproveState] |} in
  let col1 := snd (postValidatorMessages 1000 req1 []) in
  let col2 := snd (postValidatorMessages 1001 req2 col1) in
  map channelId col2 = ["channel"; "channel"; "channel"]
  /\ map received col2 = [1000; 1001; 1001]
  /\ ~ NoDup (map received col2).
Proof.
  cbv zeta. split; [reflexivity|]. split; [reflexivity|].
  intros Hnd. vm_compute in Hnd.
  inversion Hnd as [|? ? _ Hnd']. inversion Hnd' as [|? ? Hin _].
  apply Hin. now left.
Qed.

(** C8 (amended): a batch posted by one of the channel's validators is
    appended to the collection in submission order, the record at position
    [i] has the [received] value [Date.now() + i], so the values of the batch
    are strictly increasing in submission order and distinct from each
    other; a request of anyone else stores nothing. *)
Theorem postValidatorMessages_received (now : Z) (req : Request) (col : Collection) :
  (existsb (fun v => String.eqb (validator_id v) (session_uid req))
     (validators (spec (req_channel req))) = false ->
   postValidatorMessages now req col = (SendStatus 401, col))
  /\ (existsb (fun v => String.eqb (validator_id v) (session_uid req))
        (validators (spec (req_channel req))) = true ->
      exists batch,
        postValidatorMessages now req col = (SendSuccess, col ++ batch)
        /\ map msg batch = body_messages req
        /\ (forall i d, nth_error batch i = Some d ->
              channelId d = id (req_channel req)
              /\ from d = session_uid req
              /\ received d = now + Z.of_nat i)
        /\ (forall i j di dj, (i < j)%nat ->
              nth_error batch i = Some di -> nth_error batch j = Some dj ->
              received di < received dj)
        /\ NoDup (map received batch)).
Proof.
  unfold postValidatorMessages. split; intros Hauth; rewrite Hauth; simpl.
  - reflexivity.
  - set (store := fun (msg : Message) (idx : Z) =>
                    {| channelId := id (req_channel req);
                       from := session_uid req;
                       msg := msg;
                       received := now + idx |}).
    exists (map_idx store 0 (body_messages req)).
    assert (Hnth : forall i d,
               nth_error (map_idx store 0 (body_messages req)) i = Some d ->
               channelId d = id (req_channel req)
               /\ from d = session_uid req
               /\ received d = now + Z.of_nat i).
    { intros i d Hd. rewrite map_idx_nth in Hd.
      destruct (nth_error (body_messages req) i); [|discriminate].
      simpl in Hd. injection Hd as <-. simpl. auto. }
    assert (Hlt : forall i j di dj, (i < j)%nat ->
               nth_error (map_idx store 0 (body_messages req)) i = Some di ->
               nth_error (map_idx store 0 (body_messages req)) j = Some dj ->
               received di < received dj).
    { intros i j di dj Hij Hi Hj.
      apply Hnth in Hi. apply Hnth in Hj. lia. }
    split; [reflexivity|]. split; [|split; [exact Hnth|split; [exact Hlt|]]].
    + apply map_idx_map. reflexivity.
    + apply NoDup_nth_lt. intros i j x y Hij Hi Hj.
      rewrite nth_error_map in Hi, Hj.
      destruct (nth_error _ i) as [di|] eqn:Edi; [|discriminate].
      destruct (nth_error _ j) as [dj|] eqn:Edj; [|discriminate].
      simpl in Hi, Hj. injection Hi as <-. injection Hj as <-.
      exact (Hlt i j di dj Hij Edi Edj).
Qed.

(** The scenario of the specification: five messages in one call. *)
Example postValidatorMessages_five :
  map received (snd (postValidatorMessages 1000 sampleBatch []))
  = [1000; 1001; 1002; 1003; 1004].
Proof. reflexivity. Qed.

Lemma postValidatorMessages_received_witness :
  exists batch,
    postValidatorMessages 1000 sampleBatch [] = (SendSuccess, [] ++ batch)
    /\ map msg batch = body_messages sampleBatch
    /\ (forall i d, nth_error batch i = Some d ->
          channelId d = id (req_channel sampleBatch)
          /\ from d = session_uid sampleBatch
          /\ received d = 1000 + Z.of_nat i)
    /\ (forall i j di dj, (i < j)%nat ->
          nth_error batch i = Some di -> nth_error batch j = Some dj ->
          received di < received dj)
    /\ NoDup (map received batch).
Proof.
  apply (proj2 (postValidatorMessages_received 1000 sampleBatch [])).
  reflexivity.
Defined.

(** * Further properties of the sources *)

(** ** Big numbers written and read back *)

Lemma all_digits_string_of_uint d :
  all_digits (NilEmpty.string_of_uint d) = true.
Proof. induction d; simpl; auto. Qed.

Lemma parseBase_string_of_uint d :
  parseBase 0 (NilEmpty.string_of_uint d) = Z.of_uint d.
Proof.
  destruct (all_digits_uint _ (all_digits_string_of_uint d)) as (d0 & Hd0 & Hval).
  rewrite NilEmpty.usu in Hd0. injection Hd0 as <-.
  rewrite Hval. symmetry. apply uint_value_of_uint.
Qed.

Lemma parseBase_NilZero d :
  parseBase 0 (NilZero.string_of_uint d) = Z.of_uint d.
Proof.
  destruct d; try apply parseBase_string_of_uint. reflexivity.
Qed.

Lemma all_digits_NilZero d : all_digits (NilZero.string_of_uint d) = true.
Proof.
  destruct d; try apply all_digits_string_of_uint. reflexivity.
Qed.

Lemma BN_of_string_NilZero d :
  BN_of_string (NilZero.string_of_uint d) = Z.of_uint d.
Proof.
  rewrite <- parseBase_NilZero. unfold BN_of_string.
  rewrite (strip_spaces_digits _ (all_digits_NilZero d)). cbv zeta.
  destruct d; reflexivity.
Qed.

(** [new BN(n.toString(10), 10)] is [n], for every integer. *)
Lemma BN_of_string_toString z : BN_of_string (BN_toString z) = z.
Proof.
  unfold BN_toString. rewrite <- (DecimalZ.of_to z) at 2.
  destruct (Z.to_int z) as [d | d]; cbn [NilZero.string_of_int Z.of_int].
  - apply BN_of_string_NilZero.
  - rewrite <- parseBase_NilZero. unfold BN_of_string.
    change (strip_spaces (String "-" (NilZero.string_of_uint d)))
      with (String "-"%char (strip_spaces (NilZero.string_of_uint d))).
    rewrite (strip_spaces_digits _ (all_digits_NilZero d)). reflexivity.
Qed.

Lemma nzhead_not_D0 d d' : Decimal.nzhead d <> Decimal.D0 d'.
Proof. induction d; simpl; auto; discriminate. Qed.

Lemma canonical_string_of_uint d :
  d <> Decimal.Nil -> Decimal.unorm d = d ->
  is_canonical_decimal (NilEmpty.string_of_uint d) = true.
Proof.
  intros Hnil Hnorm.
  pose proof (all_digits_string_of_uint d) as Hall.
  destruct d; try contradiction;
    try (unfold is_canonical_decimal; cbn [NilEmpty.string_of_uint] in *;
         rewrite Hall; reflexivity).
  unfold Decimal.unorm in Hnorm. cbn [Decimal.nzhead] in Hnorm.
  destruct (Decimal.nzhead d) eqn:E;
    try (exfalso; revert Hnorm; rewrite <- E; apply nzhead_not_D0).
  injection Hnorm as <-. reflexivity.
Qed.

(** A number that is not negative is written without superfluous zeros. *)
Lemma BN_toString_canonical n :
  0 <= n -> is_canonical_decimal (BN_toString n) = true.
Proof.
  intros Hn. unfold BN_toString. destruct n as [|p|p]; [reflexivity| |lia].
  cbn [Z.to_int NilZero.string_of_int].
  pose proof (DecimalPos.Unsigned.to_uint_nonnil p) as Hnil.
  assert (Hnorm : Decimal.unorm (Pos.to_uint p) = Pos.to_uint p).
  { pose proof (DecimalPos.Unsigned.to_of (Pos.to_uint p)) as H.
    rewrite DecimalPos.Unsigned.of_to in H. symmetry. exact H. }
  unfold NilZero.string_of_uint.
  destruct (Pos.to_uint p) eqn:E; try contradiction;
    rewrite <- E in *; apply canonical_string_of_uint; auto.
Qed.

Lemma BN_of_string_decimal_nonneg s :
  is_decimal s = true -> 0 <= BN_of_string s.
Proof.
  intros H. assert (Hall : all_digits s = true) by (destruct s; [discriminate | exact H]).
  destruct (all_digits_uint s Hall) as (d & Hd & _).
  rewrite (BN_of_string_digits s d Hall Hd). unfold Z.of_uint. lia.
Qed.

Lemma get_map_values {A B : Type} (f : A -> B) k (o : Obj.t A) :
  Obj.get k (map (fun kv => (fst kv, f (snd kv))) o) = option_map f (Obj.get k o).
Proof.
  induction o as [|[k' v] o IH]; simpl; [reflexivity|].
  destruct (String.eqb k' k); [reflexivity | exact IH].
Qed.

Lemma keys_map_values {A B : Type} (f : A -> B) (o : Obj.t A) :
  Obj.keys (map (fun kv => (fst kv, f (snd kv))) o) = Obj.keys o.
Proof. unfold Obj.keys. now rewrite map_map. Qed.

Lemma assignable_idem {V : Type} (o : Obj.t V) :
  Obj.assignable (Obj.assignable o) = Obj.assignable o.
Proof.
  apply assignable_id. rewrite keys_assignable, filter_In.
  intros [_ H]. discriminate.
Qed.

Lemma assignable_map_values {A B : Type} (f : A -> B) (o : Obj.t A) :
  Obj.assignable (map (fun kv => (fst kv, f (snd kv))) o)
  = map (fun kv => (fst kv, f (snd kv))) (Obj.assignable o).
Proof.
  induction o as [|[k v] o IH]; simpl; [reflexivity|].
  destruct (String.eqb k "__proto__"); simpl; now rewrite IH.
Qed.

(** X1: a map of big numbers written by [toBNStringMap] and read back by
    [toBNMap] is the map without its entry [__proto__], if it has one, to
    which the assignment gives no property; so it is the map itself when no
    key is [__proto__], for all integers, negative ones included. *)
Theorem toBNStringMap_toBNMap_roundtrip (m : Obj.t BN) :
  Obj.wf m ->
  exists s,
    toBNStringMap (JObject m) = Ok s
    /\ toBNMap (JObject (rawStrings s)) = Ok (Obj.assignable m)
    /\ (~ In "__proto__" (Obj.keys m) ->
        toBNMap (JObject (rawStrings s)) = Ok m).
Proof.
  intros Hwf.
  exists (map (fun kv => (fst kv, BN_toString (snd kv))) (Obj.assignable m)).
  split; [now apply toBNStringMap_object|].
  assert (Hback :
            toBNMap
              (JObject
                 (rawStrings
                    (map (fun kv : string * BN => (fst kv, BN_toString (snd kv)))
                       (Obj.assignable m))))
            = Ok (Obj.assignable m)).
  { rewrite toBNMap_object.
    2:{ unfold Obj.wf. rewrite keys_map_values. now apply assignable_wf. }
    apply f_equal. rewrite assignable_map_values, assignable_idem.
    rewrite map_map. rewrite <- (map_id (Obj.assignable m)) at 2.
    apply map_ext. intros [k n]. simpl. now rewrite BN_of_string_toString. }
  split; [exact Hback|].
  intros Hproto. rewrite Hback. now rewrite assignable_id.
Qed.

Lemma toBNStringMap_toBNMap_roundtrip_witness :
  exists s,
    toBNStringMap (JObject [("a", 0); ("b", -42); ("__proto__", 2 ^ 200)]) = Ok s
    /\ toBNMap (JObject (rawStrings s))
       = Ok (Obj.assignable [("a", 0); ("b", -42); ("__proto__", 2 ^ 200)])
    /\ (~ In "__proto__" (Obj.keys [("a", 0); ("b", -42); ("__proto__", 2 ^ 200)]) ->
        toBNMap (JObject (rawStrings s))
        = Ok [("a", 0); ("b", -42); ("__proto__", 2 ^ 200)]).
Proof.
  apply (toBNStringMap_toBNMap_roundtrip
           [("a", 0); ("b", -42); ("__proto__", 2 ^ 200)]).
  repeat constructor; simpl; intuition discriminate.
Defined.

Example toBNStringMap_toBNMap_sample :
  toBNStringMap (JObject [("a", 0); ("b", -42); ("c", 2 ^ 70)])
  = Ok [("a", "0"); ("b", "-42"); ("c", "1180591620717411303424")]
  /\ toBNMap
       (JObject [("a", RawStr "0"); ("b", RawStr "-42");
                 ("c", RawStr "1180591620717411303424")])
     = Ok [("a", 0); ("b", -42); ("c", 2 ^ 70)].
Proof. split; reflexivity. Qed.

(** X2: on a map of digit strings, [toBNMap] followed by [toBNStringMap]
    normalises: the result has the keys of the map (but [__proto__]), every
    value is written without superfluous leading zeros, and it reads back
    as the same numbers. *)
Theorem toBNMap_toBNStringMap_normalises (raw : Obj.t string) :
  Obj.wf raw ->
  (forall k s, In (k, s) raw -> is_decimal s = true) ->
  exists m s',
    toBNMap (JObject (rawStrings raw)) = Ok m
    /\ toBNStringMap (JObject m) = Ok s'
    /\ Obj.keys s' = Obj.keys (Obj.assignable raw)
    /\ (forall k v, In (k, v) s' -> is_canonical_decimal v = true)
    /\ toBNMap (JObject (rawStrings s')) = Ok m.
Proof.
  intros Hwf Hdec.
  set (m := map (fun kv => (fst kv, BN_of_string (snd kv))) (Obj.assignable raw)).
  set (s' := map (fun kv : string * BN => (fst kv, BN_toString (snd kv))) m).
  assert (Hwfm : Obj.wf m).
  { unfold Obj.wf, m. rewrite keys_map_values. now apply assignable_wf. }
  assert (Hm : Obj.assignable m = m).
  { unfold m. now rewrite assignable_map_values, assignable_idem. }
  assert (Hwfs : Obj.wf s').
  { unfold Obj.wf, s'. rewrite keys_map_values. exact Hwfm. }
  exists m, s'. split; [now apply toBNMap_object|].
  split; [rewrite toBNStringMap_object by exact Hwfm; now rewrite Hm|].
  split; [|split].
  - unfold s', m. now rewrite !keys_map_values.
  - intros k v Hin. unfold s', m in Hin. rewrite map_map in Hin.
    apply in_map_iff in Hin. destruct Hin as ([k0 s0] & [= <- <-] & Hin).
    apply BN_toString_canonical. apply BN_of_string_decimal_nonneg.
    apply In_assignable in Hin. exact (Hdec _ _ (proj1 Hin)).
  - rewrite toBNMap_object by exact Hwfs. apply f_equal.
    unfold s'. rewrite assignable_map_values, Hm.
    rewrite map_map. rewrite <- (map_id m) at 2.
    apply map_ext. intros [k n]. simpl. now rewrite BN_of_string_toString.
Qed.

Lemma toBNMap_toBNStringMap_normalises_witness :
  exists m s',
    toBNMap (JObject (rawStrings [("a", "007"); ("__proto__", "1"); ("b", "000")]))
    = Ok m
    /\ toBNStringMap (JObject m) = Ok s'
    /\ Obj.keys s'
       = Obj.keys (Obj.assignable [("a", "007"); ("__proto__", "1"); ("b", "000")])
    /\ (forall k v, In (k, v) s' -> is_canonical_decimal v = true)
    /\ toBNMap (JObject (rawStrings s')) = Ok m.
Proof.
  apply (toBNMap_toBNStringMap_normalises
           [("a", "007"); ("__proto__", "1"); ("b", "000")]).
  - repeat constructor; simpl; intuition discriminate.
  - intros k s [H | [H | [H | []]]]; injection H as <- <-; reflexivity.
Defined.

(** X3: [toBNStringMap] has the guard of [toBNMap]: it throws the assertion
    error on every value that is not an object; on an object it returns a
    map with the keys of the object but [__proto__], to which the
    assignment gives no property, each number in decimal. *)
Theorem toBNStringMap_guard :
  (forall raw : jsval BN,
      (forall o, raw <> JObject o) ->
      toBNStringMap raw = Throw (AssertionError "raw map is a valid object"))
  /\ (forall o : Obj.t BN,
        Obj.wf o ->
        exists s,
          toBNStringMap (JObject o) = Ok s
          /\ Obj.keys s = Obj.keys (Obj.assignable o)
          /\ Obj.get "__proto__" s = None
          /\ forall k, k <> "__proto__" ->
                Obj.get k s = option_map BN_toString (Obj.get k o)).
Proof.
  split.
  - intros [ | | [|] | n | s | o] Hne; try reflexivity.
    + unfold toBNStringMap. simpl. destruct (n =? 0); reflexivity.
    + unfold toBNStringMap. simpl. destruct (String.eqb s ""); reflexivity.
    + exfalso. now apply (Hne o).
  - intros o Hwf. eexists. split; [now apply toBNStringMap_object|].
    split; [|split].
    + apply keys_map_values.
    + rewrite get_map_values, get_assignable_proto. reflexivity.
    + intros k Hk. rewrite get_map_values. now rewrite get_assignable.
Qed.

Lemma toBNStringMap_guard_witness :
  toBNStringMap JNull = Throw (AssertionError "raw map is a valid object")
  /\ exists s,
       toBNStringMap (JObject [("a", 5); ("__proto__", 7); ("b", 0)]) = Ok s
       /\ Obj.keys s = Obj.keys (Obj.assignable [("a", 5); ("__proto__", 7); ("b", 0)])
       /\ Obj.get "__proto__" s = None
       /\ forall k, k <> "__proto__" ->
             Obj.get k s
             = option_map BN_toString
                 (Obj.get k [("a", 5); ("__proto__", 7); ("b", 0)]).
Proof.
  split.
  - apply (proj1 toBNStringMap_guard JNull). discriminate.
  - apply (proj2 toBNStringMap_guard [("a", 5); ("__proto__", 7); ("b", 0)]).
    repeat constructor; simpl; intuition discriminate.
Defined.

(** ** The diagnostic string and the rejection *)

Lemma toStringBN_fold (es : list (string * string)) : forall acc,
  fold_left
    (fun result entry =>
       let '(acc, bal) := entry in
       String.append result
         (String.append " " (String.append acc (String.append ": " bal))))
    es acc
  = String.append acc
      (fold_left
         (fun result entry =>
            let '(acc, bal) := entry in
            String.append result
              (String.append " " (String.append acc (String.append ": " bal))))
         es "").
Proof.
  assert (Hassoc : forall a b c,
             String.append (String.append a b) c = String.append a (String.append b c)).
  { induction a; simpl; intros; [reflexivity | now rewrite IHa]. }
  assert (Hnil : forall a, String.append a "" = a).
  { induction a; simpl; [reflexivity | now rewrite IHa]. }
  induction es as [|[k v] es IH]; intros acc; simpl.
  - now rewrite Hnil.
  - rewrite IH. rewrite (IH (String _ _)). now rewrite Hassoc.
Qed.

(** X4: [toStringBN] has no guard: it throws a TypeError on [undefined] and
    [null], gives the empty string for a boolean, a number and the empty
    object, and the string of an object is the concatenation of the strings
    of its parts, each entry written [ acc: bal] with a leading space. *)
Theorem toStringBN_behaviour :
  toStringBN JUndefined = Throw TypeError
  /\ toStringBN JNull = Throw TypeError
  /\ (forall b, toStringBN (JBoolean b) = Ok "")
  /\ (forall n, toStringBN (JNumber n) = Ok "")
  /\ toStringBN (JObject []) = Ok ""
  /\ (forall acc bal,
        toStringBN (JObject [(acc, bal)])
        = Ok (String.append " "
                (String.append acc (String.append ": " (BN_toString bal)))))
  /\ (forall o1 o2,
        exists s1 s2,
          toStringBN (JObject o1) = Ok s1
          /\ toStringBN (JObject o2) = Ok s2
          /\ toStringBN (JObject (o1 ++ o2)) = Ok (String.append s1 s2)).
Proof.
  repeat split; try reflexivity.
  intros o1 o2. unfold toStringBN, entries_toString, Obj.entries. cbn [bind].
  do 2 eexists. split; [reflexivity|]. split; [reflexivity|].
  rewrite map_app, fold_left_app. now rewrite toStringBN_fold.
Qed.

(** X5: [onError] hands [persist] the record of [invalidNewState] (type
    [InvalidNewState], the reason, the other fields of the message); when
    [persist] rejects, the rejection is passed on and nothing is written to
    the console; when it resolves, the diagnostic line is written once and
    the result is [{ nothingNew: true }].  The store changes as one call of
    [persist] changes it. *)
Theorem onError_outcome
  (channel : Channel) (adapter : Adapter) (reason : string) (newMsg : Message)
  (prevBalancesString newBalancesString : string) :
  Obj.wf newMsg ->
  exists record : Message,
    Obj.get "type" record = Some (JString "InvalidNewState")
    /\ Obj.get "reason" record = Some (JString reason)
    /\ (forall k, k <> "type" -> k <> "reason" ->
          Obj.get k record = Obj.get k newMsg)
    /\ forall (S P : Type)
         (persist : Adapter -> Channel -> Message -> S -> result P * S) (store : S),
         onError persist channel adapter reason newMsg
           prevBalancesString newBalancesString store
         = match persist adapter channel record store with
           | (Ok _, store') =>
               (Ok {| nothingNew := true |},
                [getErrorMsg reason channel prevBalancesString newBalancesString],
                store')
           | (Throw e, store') => (Throw e, [], store')
           end.
Proof.
  intros Hwf.
  exists (Obj.set "reason" (JString reason)
            (Obj.set "type" (JString "InvalidNewState") newMsg)).
  split; [|split; [|split]].
  - rewrite get_set_other by discriminate. apply get_set_same.
  - apply get_set_same.
  - intros k Ht Hr. rewrite !get_set_other by congruence. reflexivity.
  - intros S P persist store. unfold onError, invalidNewState.
    rewrite (spread_wf newMsg Hwf). reflexivity.
Qed.

Lemma onError_outcome_witness :
  exists record : Message,
    Obj.get "type" record = Some (JString "InvalidNewState")
    /\ Obj.get "reason" record = Some (JString "InvalidRootHash")
    /\ (forall k, k <> "type" -> k <> "reason" ->
          Obj.get k record = Obj.get k sampleNewState)
    /\ forall (S P : Type)
         (persist : Adapter -> Channel -> Message -> S -> result P * S) (store : S),
         onError persist channel_1000_10_5 sampleAdapter "InvalidRootHash"
           sampleNewState "" " a: 2 b: 3" store
         = match persist sampleAdapter channel_1000_10_5 record store with
           | (Ok _, store') =>
               (Ok {| nothingNew := true |},
                [getErrorMsg "InvalidRootHash" channel_1000_10_5 "" " a: 2 b: 3"],
                store')
           | (Throw e, store') => (Throw e, [], store')
           end.
Proof.
  apply (onError_outcome channel_1000_10_5 sampleAdapter "InvalidRootHash"
           sampleNewState "" " a: 2 b: 3").
  repeat constructor; simpl; intuition discriminate.
Defined.

(** A run of [onError] over a store that keeps what was persisted. *)
Example onError_sample :
  onError (fun _ _ record store => (Ok tt, store ++ [record]))
    channel_1000_10_5 sampleAdapter "InvalidRootHash"
    [("type", JString "NewState"); ("stateRoot", JString "00")] "" " a: 2" []
  = (Ok {| nothingNew := true |},
     [String.concat ""
        [ "validatatorWorker: channel: InvalidRootHash requested in NewState ";
          LF; TAB; TAB; TAB; " prevBalances: , "; LF; " newBalances:  a: 2" ]],
     [[("type", JString "InvalidNewState"); ("stateRoot", JString "00");
       ("reason", JString "InvalidRootHash")]]).
Proof. reflexivity. Qed.

(** ** The hexadecimal state root *)

Lemma hex_val_hex_char n : (n < 16)%N -> hex_val (hex_char n) = n.
Proof.
  intros H. assert (Hk : (N.to_nat n < 16)%nat) by lia.
  rewrite <- (N2Nat.id n). remember (N.to_nat n) as k eqn:Ek. clear Ek H.
  do 16 (destruct k as [|k]; [reflexivity|]). lia.
Qed.

Lemma is_hex_char_hex_char n : is_hex_char (hex_char n) = true.
Proof.
  destruct (N.lt_ge_cases n 16) as [H | H].
  - assert (Hk : (N.to_nat n < 16)%nat) by lia.
    rewrite <- (N2Nat.id n). remember (N.to_nat n) as k eqn:Ek. clear Ek H.
    do 16 (destruct k as [|k]; [reflexivity|]). lia.
  - unfold hex_char. rewrite nth_overflow by (simpl; lia). reflexivity.
Qed.

Lemma byte_of_hex_digits x y :
  hex_char (Byte.to_N x / 16) = hex_char (Byte.to_N y / 16) ->
  hex_char (Byte.to_N x mod 16) = hex_char (Byte.to_N y mod 16) ->
  x = y.
Proof.
  intros Hhi Hlo.
  pose proof (Byte.to_N_bounded x) as Hx. pose proof (Byte.to_N_bounded y) as Hy.
  apply (f_equal hex_val) in Hhi, Hlo.
  rewrite !hex_val_hex_char in Hhi, Hlo;
    try (apply N.mod_lt; discriminate);
    try (apply N.Div0.div_lt_upper_bound; lia).
  assert (Heq : Byte.to_N x = Byte.to_N y).
  { rewrite (N.div_mod (Byte.to_N x) 16), (N.div_mod (Byte.to_N y) 16) by discriminate.
    now rewrite Hhi, Hlo. }
  pose proof (Byte.of_to_N x) as Ex. pose proof (Byte.of_to_N y) as Ey.
  rewrite Heq in Ex. congruence.
Qed.

(** Two buffers with the same hexadecimal writing are the same buffer. *)
Lemma Buffer_toString_hex_inj b1 : forall b2,
  Buffer_toString_hex b1 = Buffer_toString_hex b2 -> b1 = b2.
Proof.
  induction b1 as [|x b1 IH]; intros [|y b2]; simpl; try discriminate; auto.
  intros [= Hhi Hlo Hrest]. f_equal; [now apply byte_of_hex_digits | now apply IH].
Qed.

Lemma Buffer_toString_hex_length b :
  String.length (Buffer_toString_hex b) = (2 * length b)%nat.
Proof. induction b as [|x b IH]; simpl; [reflexivity | rewrite IH; lia]. Qed.

Lemma Buffer_toString_hex_all_hex b : all_hex (Buffer_toString_hex b) = true.
Proof.
  induction b as [|x b IH]; cbn [Buffer_toString_hex all_hex]; [reflexivity|].
  now rewrite !is_hex_char_hex_char, IH.
Qed.

(** X6: the state root is the lower-case hexadecimal writing of the
    adapter's signable root: two characters per byte, all of them in
    [0-9a-f]; a claimed root with any other character is rejected by
    [isValidRootHash]. *)
Theorem getStateRootHash_hex
  (channel : Channel) (balances : Obj.t BN) (adapter : Adapter) :
  String.length (getStateRootHash channel balances adapter)
  = (2 * length (signableStateRoot channel balances adapter))%nat
  /\ all_hex (getStateRootHash channel balances adapter) = true
  /\ forall leaderRootHash,
       all_hex leaderRootHash = false ->
       isValidRootHash leaderRootHash
         {| args_channel := channel; args_balancesAfterFees := balances;
            args_adapter := adapter |} = false.
Proof.
  split; [|split].
  - apply Buffer_toString_hex_length.
  - apply Buffer_toString_hex_all_hex.
  - intros r Hr. unfold isValidRootHash. cbn [args_channel args_balancesAfterFees args_adapter].
    apply String.eqb_neq. intros Heq. rewrite <- Heq in Hr.
    unfold getStateRootHash in Hr. rewrite Buffer_toString_hex_all_hex in Hr.
    discriminate.
Qed.

Lemma getStateRootHash_hex_witness :
  isValidRootHash "6368616E6E656C61326233"
    {| args_channel := channel_1000_10_5;
       args_balancesAfterFees := [("b", 3); ("a", 2)];
       args_adapter := sampleAdapter |} = false.
Proof.
  apply (proj2 (proj2 (getStateRootHash_hex channel_1000_10_5
                         [("b", 3); ("a", 2)] sampleAdapter))
           "6368616E6E656C61326233").
  reflexivity.
Defined.

(** X7: comparing the hexadecimal strings is comparing the bytes: the
    hexadecimal writing of a claimed root is accepted by [isValidRootHash]
    exactly when the claimed bytes are the adapter's signable root for the
    channel and the balances. *)
Theorem isValidRootHash_bytes (claimed : Buffer) (args : RootHashArgs) :
  isValidRootHash (Buffer_toString_hex claimed) args = true
  <-> claimed
      = signableStateRoot (args_channel args) (args_balancesAfterFees args)
          (args_adapter args).
Proof.
  unfold isValidRootHash. rewrite String.eqb_eq. split.
  - intros H. symmetry. now apply Buffer_toString_hex_inj.
  - intros ->. reflexivity.
Qed.

(** ** More on the fee distribution *)

Section FeeLoopErrors.
Variable balances : Obj.t amount.
Variable total : BN.
Variable deposit : amount.

Local Abbreviation D := (BN_new (Some deposit)).
Local Abbreviation raw k := (BN_new (Obj.get k balances)).
Local Abbreviation post k := (afterFee D total (raw k)).
Local Abbreviation body := (feeLoop_body (JObject balances) total deposit).
Local Abbreviation negative :=
  (AssertionError "publisher balance should not be negative").





End FeeLoopErrors.














Lemma afterFee_ceiling deposit total b :
  0 < deposit -> 0 <= total <= deposit -> 0 <= b ->
  b * total <= afterFee deposit total b * deposit < b * total + deposit.
Proof.
  intros Hd Ht Hb. unfold afterFee, feeTerm.
  rewrite Z.quot_div_nonneg by nia.
  pose proof (Z.mul_div_le (b * (deposit - total)) deposit Hd) as Hle.
  pose proof (Z.mul_succ_div_gt (b * (deposit - total)) deposit Hd) as Hgt.
  nia.
Qed.

(** X10: with a positive deposit, a total fee between zero and the deposit
    and a raw balance [b] that is not negative, the entry in the result of a
    publisher not called [validator] or [__proto__] is
    [b * totalFee / deposit] rounded up: the publisher keeps the fee share
    of its balance and no more than [b]; the rest goes to the [validator]
    entry.  The publisher called [__proto__] has no entry. *)
Theorem getBalancesAfterFeesTree_publisher_share
  (balances : Obj.t amount) (channel : Channel) (m : Obj.t BN)
  (leader follower : Validator) (rest : list Validator) (k : string) (v : amount) :
  Obj.wf balances ->
  getBalancesAfterFeesTree (JObject balances) channel = Ok m ->
  validators (spec channel) = leader :: follower :: rest ->
  0 < BN_new (Some (depositAmount channel)) ->
  0 <= totalFee leader follower <= BN_new (Some (depositAmount channel)) ->
  In (k, v) balances ->
  k <> "validator" ->
  0 <= BN_new (Some v) ->
  (k <> "__proto__" ->
   exists p,
     Obj.get k m = Some p
     /\ BN_new (Some v) * totalFee leader follower
        <= p * BN_new (Some (depositAmount channel))
        < BN_new (Some v) * totalFee leader follower
          + BN_new (Some (depositAmount channel))
     /\ 0 <= p <= BN_new (Some v))
  /\ (k = "__proto__" -> Obj.get k m = None).
Proof.
  intros Hwf Hm Hv HD HT Hin Hk Hb.
  destruct (getBalancesAfterFeesTree_inv _ _ _ Hwf Hm)
    as (leader' & follower' & rest' & Hv' & -> & _ & _).
  rewrite Hv in Hv'. injection Hv' as <- <- <-.
  split.
  - intros Hproto.
    exists (afterFee (BN_new (Some (depositAmount channel)))
              (totalFee leader follower) (BN_new (Some v))).
    split.
    + rewrite get_set_other by congruence.
      apply get_In_wf.
      * unfold Obj.wf. rewrite keys_postFees. now apply assignable_wf.
      * unfold postFees. apply in_map_iff. exists (k, v).
        split; [reflexivity|]. now apply In_assignable.
    + pose proof (afterFee_ceiling _ _ _ HD HT Hb) as Hc.
      split; [exact Hc|]. nia.
  - intros ->. rewrite get_set_other by congruence.
    apply get_None_iff. rewrite keys_postFees, keys_assignable, filter_In.
    intros [_ H]. discriminate.
Qed.

Lemma getBalancesAfterFeesTree_publisher_share_witness :
  exists p,
    Obj.get "A" [("A", 2); ("B", 3); ("validator", 295)] = Some p
    /\ BN_new (Some (AmtStr "100")) * totalFee sampleLeader sampleFollower
       <= p * BN_new (Some (depositAmount channel_1000_10_5))
       < BN_new (Some (AmtStr "100")) * totalFee sampleLeader sampleFollower
         + BN_new (Some (depositAmount channel_1000_10_5))
    /\ 0 <= p <= BN_new (Some (AmtStr "100")).
Proof.
  apply (proj1 (getBalancesAfterFeesTree_publisher_share
                  [("A", AmtStr "100"); ("B", AmtStr "200")] channel_1000_10_5
                  [("A", 2); ("B", 3); ("validator", 295)]
                  sampleLeader sampleFollower [] "A" (AmtStr "100")
                  ltac:(repeat constructor; simpl; intuition discriminate)
                  eq_refl eq_refl eq_refl
                  ltac:(split; discriminate)
                  ltac:(simpl; auto)
                  ltac:(discriminate)
                  ltac:(discriminate))).
  discriminate.
Defined.

(** ** Grouping and querying the event aggregates *)

(** X11: whatever the timeframe, the group of [getGroup] is keyed by
    [year], every entry refers to the field of its own name ([$] and the
    key), and that field is one the [$project] stage of the pipeline
    produces; a timeframe other than the strings [month], [week], [day],
    [hour] and [minute] groups by year only. *)
Theorem getGroup_fields (timeframe : jsval string) :
  Obj.get "year" (getGroup timeframe) = Some "$year"
  /\ Obj.wf (getGroup timeframe)
  /\ (forall k v,
        In (k, v) (getGroup timeframe) ->
        v = String.append "$" k
        /\ exists e, Obj.get k eventTimeAggregate_project = Some e)
  /\ ((forall name, In name ["month"; "week"; "day"; "hour"; "minute"] ->
         timeframe <> JString name) ->
      getGroup timeframe = [("year", "$year")]).
Proof.
  assert (Hwf : forall l : list string,
             (if list_eq_dec string_dec (nodup string_dec l) l then true else false)
             = true -> NoDup l).
  { intros l H. destruct (list_eq_dec string_dec (nodup string_dec l) l) as [E|]; [|discriminate].
    rewrite <- E. apply NoDup_nodup. }
  unfold getGroup.
  destruct timeframe as [ | | b | n | s | o];
    try (repeat split;
         [ apply Hwf; reflexivity
         | simpl in *; destruct H as [H | []]; injection H as <- <-; reflexivity
         | simpl in *; destruct H as [H | []]; injection H as <- <-; eexists; reflexivity ]).
  destruct (String.eqb s "month") eqn:E1;
    [|destruct (String.eqb s "week") eqn:E2;
      [|destruct (String.eqb s "day") eqn:E3;
        [|destruct (String.eqb s "hour") eqn:E4;
          [|destruct (String.eqb s "minute") eqn:E5]]]];
    (split; [reflexivity|]);
    (split; [apply Hwf; reflexivity|]);
    (split;
     [ intros k v H; simpl in H;
       repeat (destruct H as [H | H]; [injection H as <- <-; split; [reflexivity | eexists; reflexivity]|]);
       contradiction
     | ]);
    intros Hnot; try reflexivity; exfalso.
  - apply String.eqb_eq in E1. apply (Hnot "month"); [simpl; auto | congruence].
  - apply String.eqb_eq in E2. apply (Hnot "week"); [simpl; auto | congruence].
  - apply String.eqb_eq in E3. apply (Hnot "day"); [simpl; auto | congruence].
  - apply String.eqb_eq in E4. apply (Hnot "hour"); [simpl; auto 6 | congruence].
  - apply String.eqb_eq in E5. apply (Hnot "minute"); [simpl; auto 6 | congruence].
Qed.

Lemma getGroup_fields_witness :
  getGroup (JString "fortnight") = [("year", "$year")].
Proof.
  apply (proj2 (proj2 (proj2 (getGroup_fields (JString "fortnight"))))).
  intros name H. simpl in H.
  repeat (destruct H as [<- | H]; [discriminate|]). contradiction.
Defined.

(** X12: the query of [getEventAggregates] always selects the channel.  A
    caller that is not a validator of the channel can only reach aggregates
    that have an event count under its own identifier, and the projection
    shows it [created] and its own counts and payouts and nothing else; a
    validator gets every field but [_id].  The [created] term is present
    exactly when [after] is a string. *)
Theorem getEventAggregates_query_shape
  (parseDate : string -> option Z) (channel : Channel) (uid : string)
  (after : jsval string) :
  let keyCounts := String.append "events.IMPRESSION.eventCounts." uid in
  let keyPayouts := String.append "events.IMPRESSION.eventPayouts." uid in
  let isSuperuser :=
    existsb (fun v => String.eqb (validator_id v) uid) (validators (spec channel)) in
  let query := fst (getEventAggregates_query parseDate channel uid after) in
  let projection := snd (getEventAggregates_query parseDate channel uid after) in
  Obj.get "channelId" query = Some (QEquals (id channel))
  /\ Obj.get "created" query
     = match after with
       | JString s => Some (QGtDate (parseDate s))
       | _ => None
       end
  /\ (if isSuperuser
      then Obj.get keyCounts query = None /\ projection = [("_id", 0)]
      else Obj.get keyCounts query = Some (QExists true)
           /\ projection
              = [("_id", 0); ("created", 1); (keyCounts, 1); (keyPayouts, 1)]).
Proof.
  cbv zeta. unfold getEventAggregates_query.
  destruct (existsb _ (validators (spec channel))); destruct after;
    cbn; rewrite ?String.eqb_refl; cbn; rewrite ?String.eqb_refl;
    repeat split; reflexivity.
Qed.

(** ** The address of the client *)

Lemma split_on_first (sep : ascii) (s : string) :
  exists first others,
    split_on sep s = first :: others
    /\ has_char sep first = false
    /\ ((others = [] /\ s = first)
        \/ exists tail, s = String.append first (String sep tail)).
Proof.
  induction s as [|c s IH].
  - exists "", []. simpl. auto.
  - destruct IH as (first & others & Hsplit & Hno & Hshape). simpl.
    destruct (Ascii.eqb c sep) eqn:E.
    + apply Ascii.eqb_eq in E. subst c.
      exists "", (split_on sep s). repeat split; auto.
      right. exists s. reflexivity.
    + rewrite Hsplit. exists (String c first), others.
      split; [reflexivity|]. split; [simpl; now rewrite E|].
      destruct Hshape as [[-> ->] | [tail ->]]; [left; auto|].
      right. exists tail. reflexivity.
Qed.

(** X13: the address [postEvents] gives the aggregator is the
    [true-client-ip] header when that header is not empty; otherwise, when
    [x-forwarded-for] is not empty, the part of it before its first comma,
    which holds no comma (and is empty when the header starts with one);
    otherwise [null]. *)
Theorem postEvents_ip_cases (trueip xforwardedfor : option string) :
  match postEvents_ip trueip xforwardedfor with
  | Some ip =>
      (trueip = Some ip /\ ip <> "")
      \/ (header_truthy trueip = false
          /\ has_char "," ip = false
          /\ exists x,
               xforwardedfor = Some x /\ x <> ""
               /\ (x = ip \/ exists tail, x = String.append ip (String "," tail)))
  | None => header_truthy trueip = false /\ header_truthy xforwardedfor = false
  end.
Proof.
  unfold postEvents_ip.
  destruct (header_truthy trueip) eqn:Et.
  - destruct trueip as [t|]; [|discriminate]. left. split; [reflexivity|].
    simpl in Et. apply negb_true_iff, String.eqb_neq in Et. exact Et.
  - destruct (header_truthy xforwardedfor) eqn:Ex; [|auto].
    destruct xforwardedfor as [x|]; [|discriminate].
    destruct (split_on_first "," x) as (first & others & Hsplit & Hno & Hshape).
    rewrite Hsplit. simpl. right. split; [reflexivity|]. split; [exact Hno|].
    exists x. split; [reflexivity|]. split.
    + simpl in Ex. now apply negb_true_iff, String.eqb_neq in Ex.
    + destruct Hshape as [[_ ->] | Htail]; auto.
Qed.

(** X14: [postEvents] hands the aggregator the session with its [ip] field
    set to the address read from the headers, whatever [ip] the session had,
    and every other field as it was; it answers with the aggregator's
    status code, with 200 when there is none or it is zero, and it passes a
    failure of the aggregator on. *)
Theorem postEvents_outcome
  (params_id : string) (session : option (Obj.t (jsval string)))
  (trueip xforwardedfor : option string) :
  (forall o, session = Some o -> Obj.wf o) ->
  exists session' : Obj.t (jsval string),
    Obj.get "ip" session'
    = Some (match postEvents_ip trueip xforwardedfor with
            | Some s => JString s
            | None => JNull
            end)
    /\ (forall k, k <> "ip" ->
          Obj.get k session'
          = match session with Some o => Obj.get k o | None => None end)
    /\ forall (Events Resp : Type)
         (record : string -> Obj.t (jsval string) -> Events -> result Resp)
         (statusCode : Resp -> option Z) (events : Events),
         match record params_id session' events with
         | Ok resp =>
             exists status,
               postEvents record statusCode params_id session trueip
                 xforwardedfor events = Ok (status, resp)
               /\ status <> 0
               /\ (forall code, statusCode resp = Some code -> code <> 0 ->
                     status = code)
               /\ (statusCode resp = None \/ statusCode resp = Some 0 ->
                   status = 200)
         | Throw e =>
             postEvents record statusCode params_id session trueip
               xforwardedfor events = Throw e
         end.
Proof.
  intros Hwf.
  set (o := match session with Some o => o | None => Obj.empty end).
  assert (Hwfo : Obj.wf o).
  { unfold o. destruct session as [o'|]; [now apply Hwf | constructor]. }
  exists (Obj.set "ip"
            (match postEvents_ip trueip xforwardedfor with
             | Some s => JString s
             | None => JNull
             end) o).
  split; [apply get_set_same|]. split.
  - intros k Hk. rewrite get_set_other by congruence.
    unfold o. destruct session; reflexivity.
  - intros Events Resp record statusCode events. unfold postEvents.
    fold o. rewrite (spread_wf o Hwfo).
    destruct (record params_id _ events) as [resp|e]; cbn [bind]; [|reflexivity].
    eexists. split; [reflexivity|].
    destruct (statusCode resp) as [code|].
    + destruct (code =? 0) eqn:E.
      * apply Z.eqb_eq in E. subst code. repeat split; try lia.
        intros code [= <-] Hne. contradiction.
      * apply Z.eqb_neq in E. repeat split; auto.
        -- intros code' [= <-] _. reflexivity.
        -- intros [H | H]; [discriminate | injection H as ->; contradiction].
    + repeat split; try lia. intros code H. discriminate.
Qed.

Lemma postEvents_outcome_witness :
  exists session' : Obj.t (jsval string),
    Obj.get "ip" session'
    = Some (match postEvents_ip None (Some "10.0.0.1, 10.0.0.2") with
            | Some s => JString s
            | None => JNull
            end)
    /\ (forall k, k <> "ip" ->
          Obj.get k session'
          = match Some [("uid", JString "u"); ("ip", JString "spoofed")] with
            | Some o => Obj.get k o
            | None => None
            end)
    /\ forall (Events Resp : Type)
         (record : string -> Obj.t (jsval string) -> Events -> result Resp)
         (statusCode : Resp -> option Z) (events : Events),
         match record "channel" session' events with
         | Ok resp =>
             exists status,
               postEvents record statusCode "channel"
                 (Some [("uid", JString "u"); ("ip", JString "spoofed")])
                 None (Some "10.0.0.1, 10.0.0.2") events = Ok (status, resp)
               /\ status <> 0
               /\ (forall code, statusCode resp = Some code -> code <> 0 ->
                     status = code)
               /\ (statusCode resp = None \/ statusCode resp = Some 0 ->
                   status = 200)
         | Throw e =>
             postEvents record statusCode "channel"
               (Some [("uid", JString "u"); ("ip", JString "spoofed")])
               None (Some "10.0.0.1, 10.0.0.2") events = Throw e
         end.
Proof.
  apply (postEvents_outcome "channel"
           (Some [("uid", JString "u"); ("ip", JString "spoofed")])
           None (Some "10.0.0.1, 10.0.0.2")).
  intros o [= <-]. repeat constructor; simpl; intuition discriminate.
Defined.

Example postEvents_ip_sample :
  postEvents_ip (Some "") (Some "10.0.0.1, 10.0.0.2") = Some "10.0.0.1"
  /\ postEvents_ip None (Some ",10.0.0.2") = Some ""
  /\ postEvents_ip (Some "1.2.3.4") (Some "10.0.0.1") = Some "1.2.3.4"
  /\ postEvents_ip None None = None.
Proof. repeat split. Qed.

(** ** The message log: writers and readers *)

Lemma filter_through {A : Type} (q c : A -> bool) (l : list A) :
  (forall d, q d = true -> c d = true) ->
  filter q l = filter q (filter c l).
Proof.
  intros Himp. induction l as [|d l IH]; simpl; [reflexivity|].
  destruct (q d) eqn:Eq.
  - rewrite (Himp d Eq). simpl. rewrite Eq. now f_equal.
  - destruct (c d); simpl; [rewrite Eq|]; exact IH.
Qed.

Lemma find_filter {A : Type} (q : A -> bool) (l : list A) :
  List.find q l = hd_error (filter q l).
Proof.
  induction l as [|d l IH]; simpl; [reflexivity|].
  destruct (q d); [reflexivity | exact IH].
Qed.

Lemma approveState_query_channel channel follower d :
  approveState_query channel follower d = true ->
  String.eqb (channelId d) (id channel) = true.
Proof.
  unfold approveState_query. rewrite !andb_true_iff. tauto.
Qed.

Lemma newState_query_channel channel leader a d :
  newState_query channel leader a d = true ->
  String.eqb (channelId d) (id channel) = true.
Proof.
  unfold newState_query. rewrite !andb_true_iff. tauto.
Qed.

(** X15: [retrieveLastApproved] reads the documents of its channel only:
    two collections with the same documents of that channel, in the same
    order, give the same answer, whatever they hold of other channels. *)
Theorem retrieveLastApproved_channel_only (channel : Channel) (col col' : Collection) :
  filter (fun d => String.eqb (channelId d) (id channel)) col
  = filter (fun d => String.eqb (channelId d) (id channel)) col' ->
  retrieveLastApproved channel col = retrieveLastApproved channel col'.
Proof.
  intros Hsame. unfold retrieveLastApproved.
  destruct (validator_at channel 1) as [follower|e]; [|reflexivity]. cbn [bind].
  unfold find, findOne, limit.
  rewrite (filter_through (approveState_query channel follower) _ col
             (approveState_query_channel channel follower)).
  rewrite (filter_through (approveState_query channel follower) _ col'
             (approveState_query_channel channel follower)).
  rewrite Hsame.
  destruct (map VALIDATOR_MSGS_PROJ _) as [|approveState others]; [reflexivity|].
  destruct (validator_at channel 0) as [leader|e]; [|reflexivity]. cbn [bind].
  rewrite !find_filter.
  rewrite (filter_through (newState_query channel leader approveState) _ col
             (newState_query_channel channel leader approveState)).
  rewrite (filter_through (newState_query channel leader approveState) _ col'
             (newState_query_channel channel leader approveState)).
  now rewrite Hsame.
Qed.

Lemma retrieveLastApproved_channel_only_witness :
  retrieveLastApproved channel_1000_10_5 sampleCollection
  = retrieveLastApproved channel_1000_10_5 (firstn 2 sampleCollection).
Proof.
  apply (retrieveLastApproved_channel_only channel_1000_10_5 sampleCollection
           (firstn 2 sampleCollection)).
  reflexivity.
Defined.



(** The most recent document comes first when it is strictly the most
    recent. *)
Lemma sort_received_desc_newest l a :
  (forall d, In d l -> received d < received a) ->
  exists others, sort_received_desc (l ++ [a]) = a :: others.
Proof.
  intros Hold.
  destruct (sort_received_desc (l ++ [a])) as [|h others] eqn:Es.
  - exfalso. assert (Hin : In a (sort_received_desc (l ++ [a]))).
    { apply In_sort_received_desc, in_or_app. right. now left. }
    rewrite Es in Hin. contradiction.
  - assert (Hh : In h (l ++ [a])).
    { apply In_sort_received_desc. rewrite Es. now left. }
    assert (Hmax : received a <= received h).
    { apply (sort_received_desc_head _ _ _ Es). apply in_or_app. right. now left. }
    apply in_app_or in Hh. destruct Hh as [Hh | [<- | []]].
    + specialize (Hold h Hh). lia.
    + eauto.
Qed.

(** X17: when the follower posts one ApproveState at a time later than
    every approval it has in the channel, and the leader has a NewState in
    the channel with the same state root, [retrieveLastApproved] on the new
    collection returns that approval, as stored, with a NewState of the
    leader that has its state root. *)
Theorem approve_then_retrieveLastApproved
  (channel : Channel) (leader follower : Validator) (rest : list Validator)
  (col : Collection) (now : Z) (approve : Message) (n : StoredMessage) :
  validators (spec channel) = leader :: follower :: rest ->
  Obj.get "type" approve = Some (JString "ApproveState") ->
  In n col ->
  channelId n = id channel ->
  from n = validator_id leader ->
  Obj.get "type" (msg n) = Some (JString "NewState") ->
  Obj.get "stateRoot" (msg n) = Obj.get "stateRoot" approve ->
  (forall d, In d col -> approveState_query channel follower d = true ->
     received d < now) ->
  exists n',
    In n' col
    /\ from n' = validator_id leader
    /\ Obj.get "type" (msg n') = Some (JString "NewState")
    /\ Obj.get "stateRoot" (msg n') = Obj.get "stateRoot" approve
    /\ retrieveLastApproved channel
         (snd (postValidatorMessages now
                 {| req_channel := channel;
                    session_uid := validator_id follower;
                    body_messages := [approve] |} col))
       = Ok (Some {| newState := VALIDATOR_MSGS_PROJ n';
                     approveState :=
                       {| proj_from := validator_id follower;
                          proj_msg := approve;
                          proj_received := now |} |}).
Proof.
  intros Hv Htype Hn Hnc Hnf Hnt Hnr Hold.
  set (a := {| channelId := id channel; from := validator_id follower;
               msg := approve; received := now + 0 |}).
  assert (Hpost : snd (postValidatorMessages now
                         {| req_channel := channel;
                            session_uid := validator_id follower;
                            body_messages := [approve] |} col)
                  = col ++ [a]).
  { unfold postValidatorMessages. cbn [req_channel session_uid body_messages].
    rewrite Hv. cbn [existsb]. rewrite String.eqb_refl, orb_true_r. reflexivity. }
  rewrite Hpost. clear Hpost.
  assert (Haq : approveState_query channel follower a = true).
  { apply approveState_query_spec. simpl. auto. }
  assert (Hnq : newState_query channel leader (VALIDATOR_MSGS_PROJ a) n = true).
  { apply newState_query_spec. simpl. auto. }
  unfold retrieveLastApproved, validator_at. rewrite Hv. cbn [nth_error bind].
  unfold find, findOne, limit.
  rewrite filter_app. cbn [filter]. rewrite Haq.
  destruct (sort_received_desc_newest
              (filter (approveState_query channel follower) col) a)
    as [others Hsort].
  { intros d Hd. apply filter_In in Hd. destruct Hd as [Hd Hq].
    specialize (Hold d Hd Hq). simpl. lia. }
  rewrite Hsort. cbn [firstn map].
  destruct (List.find (newState_query channel leader (VALIDATOR_MSGS_PROJ a))
              (col ++ [a])) as [n'|] eqn:Ef.
  - apply find_some in Ef. destruct Ef as [Hin Hq].
    apply newState_query_spec in Hq. destruct Hq as (Hc & Hf & Ht & Hr).
    apply in_app_or in Hin. destruct Hin as [Hin | [<- | []]].
    + exists n'. repeat split; auto. cbn [option_map].
      unfold VALIDATOR_MSGS_PROJ at 2. simpl. now rewrite Z.add_0_r.
    + simpl in Ht. rewrite Htype in Ht. discriminate.
  - exfalso.
    pose proof (find_none _ _ Ef n (in_or_app _ _ _ (or_introl Hn))) as Hf.
    rewrite Hnq in Hf. discriminate.
Qed.

Lemma approve_then_retrieveLastApproved_witness :
  exists n',
    In n' (firstn 1 sampleCollection)
    /\ from n' = validator_id sampleLeader
    /\ Obj.get "type" (msg n') = Some (JString "NewState")
    /\ Obj.get "stateRoot" (msg n') = Obj.get "stateRoot" sampleApproveState
    /\ retrieveLastApproved channel_1000_10_5
         (snd (postValidatorMessages 2000
                 {| req_channel := channel_1000_10_5;
                    session_uid := validator_id sampleFollower;
                    body_messages := [sampleApproveState] |}
                 (firstn 1 sampleCollection)))
       = Ok (Some {| newState := VALIDATOR_MSGS_PROJ n';
                     approveState :=
                       {| proj_from := validator_id sampleFollower;
                          proj_msg := sampleApproveState;
                          proj_received := 2000 |} |}).
Proof.
  apply (approve_then_retrieveLastApproved channel_1000_10_5
           sampleLeader sampleFollower [] (firstn 1 sampleCollection) 2000
           sampleApproveState
           {| channelId := "channel"; from := "leader"; msg := sampleNewState;
              received := 1000 |});
    try reflexivity.
  - simpl. auto.
  - intros d [<- | []] H. vm_compute in H. discriminate.
Defined.

Lemma In_map_idx {A B : Type} (f : A -> Z -> B) (l : list A) : forall idx y,
  In y (map_idx f idx l) -> exists x i, In x l /\ y = f x i.
Proof.
  induction l as [|x l IH]; intros idx y; simpl; [contradiction|].
  intros [<- | Hin]; [exists x, idx; auto|].
  destruct (IH _ _ Hin) as (x' & i & Hx & ->). exists x', i. auto.
Qed.

(** X18: [postValidatorMessages] never touches the documents already in the
    collection, and only a validator of the channel can add to its log: if
    every document of a channel names a validator of the channel as its
    author, this still holds after any request. *)
Theorem postValidatorMessages_authorship
  (now : Z) (req : Request) (col : Collection) (channel : Channel) :
  (id (req_channel req) = id channel -> req_channel req = channel) ->
  authored_by_validators channel col ->
  firstn (length col) (snd (postValidatorMessages now req col)) = col
  /\ authored_by_validators channel (snd (postValidatorMessages now req col)).
Proof.
  intros Hsame Hinv. unfold postValidatorMessages.
  destruct (existsb _ (validators (spec (req_channel req)))) eqn:Eauth; simpl.
  - split.
    + rewrite firstn_app, Nat.sub_diag, firstn_all. simpl. apply app_nil_r.
    + intros d Hd Hc. apply in_app_or in Hd. destruct Hd as [Hd | Hd]; [now apply Hinv|].
      apply In_map_idx in Hd. destruct Hd as (m & i & _ & ->). simpl in *.
      apply existsb_exists in Eauth. destruct Eauth as (v & Hv & Heq).
      apply String.eqb_eq in Heq. exists v. rewrite <- (Hsame Hc). auto.
  - split; [apply firstn_all | exact Hinv].
Qed.

Lemma postValidatorMessages_authorship_witness :
  firstn (length sampleCollection)
    (snd (postValidatorMessages 2000 sampleBatch sampleCollection))
  = sampleCollection
  /\ authored_by_validators channel_1000_10_5
       (snd (postValidatorMessages 2000 sampleBatch sampleCollection)).
Proof.
  apply (postValidatorMessages_authorship 2000 sampleBatch sampleCollection
           channel_1000_10_5).
  - reflexivity.
  - intros d [<- | [<- | [<- | []]]] Hc.
    + exists sampleLeader. simpl. auto.
    + exists sampleFollower. simpl. auto.
    + discriminate Hc.
Defined.

(** ** The earlier routes *)

Lemma typeof_string {V : Type} (v : jsval V) :
  String.eqb (typeof v) "string" = true <-> exists s, v = JString s.
Proof.
  destruct v; simpl; split; intros H; try discriminate; eauto;
    destruct H as [s' H]; discriminate.
Qed.

Lemma typeof_object {V : Type} (v : jsval V) :
  String.eqb (typeof v) "object" = true <-> v = JNull \/ exists o, v = JObject o.
Proof.
  destruct v; simpl; split; intros H; try discriminate; eauto;
    destruct H as [H | [o' H]]; discriminate.
Qed.

Lemma typeof_field_string field m :
  String.eqb (Legacy.typeof_field field m) "string" = true
  <-> exists s, Obj.get field m = Some (JString s).
Proof.
  unfold Legacy.typeof_field. destruct (Obj.get field m) as [v|].
  - rewrite typeof_string. split; intros [s H]; exists s; congruence.
  - simpl. split; [discriminate | intros [s H]; discriminate].
Qed.

Lemma typeof_field_object field m :
  String.eqb (Legacy.typeof_field field m) "object" = true
  <-> Obj.get field m = Some JNull \/ exists o, Obj.get field m = Some (JObject o).
Proof.
  unfold Legacy.typeof_field. destruct (Obj.get field m) as [v|].
  - rewrite typeof_object. split; intros [H | [o H]];
      [left | right; exists o | left | right; exists o]; congruence.
  - simpl. split; [discriminate | intros [H | [o H]]; discriminate].
Qed.

Lemma isValidatorMsgValid_spec (m : Message) :
  Legacy.isValidatorMsgValid m = true
  <-> (exists root, Obj.get "stateRoot" m = Some (JString root)
                    /\ String.length root = 64%nat)
      /\ (exists signature, Obj.get "signature" m = Some (JString signature))
      /\ ((Obj.get "type" m = Some (JString "NewState")
           /\ (Obj.get "balances" m = Some JNull
               \/ exists o, Obj.get "balances" m = Some (JObject o)))
          \/ Obj.get "type" m = Some (JString "ApproveState")).
Proof.
  unfold Legacy.isValidatorMsgValid.
  rewrite !andb_true_iff, orb_true_iff, andb_true_iff.
  rewrite !typeof_field_string, typeof_field_object, !field_is_spec.
  unfold Legacy.stateRoot_length_is_64. split.
  - intros ((([root Hroot] & Hlen) & Hsig) & Htype).
    rewrite Hroot in Hlen. apply Nat.eqb_eq in Hlen.
    split; [eauto|]. split; assumption.
  - intros ((root & Hroot & Hlen) & Hsig & Htype).
    rewrite Hroot. split; [|assumption]. split; [|assumption].
    split; [eauto | now apply Nat.eqb_eq].
Qed.

(** X19: a message passes [isValidatorMsgValid] only if its state root is a
    string of 64 characters, its signature is a string, and it is an
    ApproveState, or a NewState whose [balances] is an object or [null]; so
    no message of another type passes, whatever its fields, and validity
    does not change when [balances] is replaced by [null]. *)
Theorem isValidatorMsgValid_accepts (m : Message) :
  (Legacy.isValidatorMsgValid m = true ->
   (exists root, Obj.get "stateRoot" m = Some (JString root)
                 /\ String.length root = 64%nat)
   /\ (exists signature, Obj.get "signature" m = Some (JString signature))
   /\ (Obj.get "type" m = Some (JString "NewState")
       \/ Obj.get "type" m = Some (JString "ApproveState")))
  /\ (forall t, Obj.get "type" m = Some (JString t) ->
        t <> "NewState" -> t <> "ApproveState" ->
        Legacy.isValidatorMsgValid m = false)
  /\ (forall o,
        Legacy.isValidatorMsgValid (Obj.set "balances" (JObject o) m)
        = Legacy.isValidatorMsgValid (Obj.set "balances" JNull m)).
Proof.
  split; [|split].
  - intros H. apply isValidatorMsgValid_spec in H.
    destruct H as (Hroot & Hsig & Htype). split; [exact Hroot|]. split; [exact Hsig|].
    tauto.
  - intros t Ht Hn Ha.
    destruct (Legacy.isValidatorMsgValid m) eqn:E; [|reflexivity].
    apply isValidatorMsgValid_spec in E. destruct E as (_ & _ & [[H _] | H]);
      rewrite Ht in H; congruence.
  - intros o. unfold Legacy.isValidatorMsgValid, Legacy.typeof_field,
      Legacy.stateRoot_length_is_64, field_is.
    rewrite !get_set_same.
    rewrite !(get_set_other "balances" "stateRoot") by discriminate.
    rewrite !(get_set_other "balances" "signature") by discriminate.
    rewrite !(get_set_other "balances" "type") by discriminate.
    reflexivity.
Qed.

Lemma isValidatorMsgValid_accepts_witness :
  Legacy.isValidatorMsgValid
    [("type", JString "InvalidNewState");
     ("stateRoot", JString "0000000000000000000000000000000000000000000000000000000000000000");
     ("signature", JString "sig")] = false.
Proof.
  apply (proj1 (proj2 (isValidatorMsgValid_accepts
                         [("type", JString "InvalidNewState");
                          ("stateRoot", JString "0000000000000000000000000000000000000000000000000000000000000000");
                          ("signature", JString "sig")]))
           "InvalidNewState" eq_refl); discriminate.
Defined.

(** X20: [isValidatorMsgValid] does not look into the balances of a
    NewState.  In a message that passes it they are [null] or an object:
    [toBNMap] throws its assertion error on [null]; on an object it returns
    a map when [new BN] accepts every value, and throws the assertion of
    bn.js when it refuses one.  So a message that passed the validation can
    still carry balances that [toBNMap] refuses. *)
Theorem valid_NewState_balances (m : Message) (balances : jsval rawAmount) :
  Legacy.isValidatorMsgValid m = true ->
  Obj.get "type" m = Some (JString "NewState") ->
  Obj.get "balances" m = Some balances ->
  (balances = JNull
   /\ toBNMap balances = Throw (AssertionError "raw map is a valid object"))
  \/ (exists o,
        balances = JObject o
        /\ ((forall k v, In (k, v) o -> exists n, BN_of_raw v = Ok n) ->
            exists bn, toBNMap balances = Ok bn)
        /\ ((exists k v, In (k, v) o /\ BN_of_raw v = Throw BNAssertion) ->
            toBNMap balances = Throw BNAssertion)).
Proof.
  intros Hvalid Htype Hbal. apply isValidatorMsgValid_spec in Hvalid.
  destruct Hvalid as (_ & _ & [[_ Hobj] | Happrove]).
  - destruct Hobj as [Hnull | [o Ho]].
    + left. rewrite Hbal in Hnull. injection Hnull as ->. auto.
    + right. rewrite Hbal in Ho. injection Ho as ->. exists o.
      split; [reflexivity|].
      destruct (toBNMap_object_cases o) as [Hiff Hthrow]. split.
      * intros Hall. now apply Hiff.
      * intros (k & v & Hin & Hv).
        destruct (toBNMap (JObject o)) as [bn|e] eqn:E.
        -- assert (Hall : forall k v, In (k, v) o -> exists n, BN_of_raw v = Ok n)
             by (apply Hiff; eauto).
           destruct (Hall k v Hin) as [n Hn]. congruence.
        -- now rewrite (Hthrow e eq_refl).
  - rewrite Htype in Happrove. discriminate.
Qed.

Lemma valid_NewState_balances_witness :
  (JObject [("a", RawStr "1"); ("b", RawObject)] = (JNull : jsval rawAmount)
   /\ toBNMap (JObject [("a", RawStr "1"); ("b", RawObject)])
      = Throw (AssertionError "raw map is a valid object"))
  \/ (exists o,
        JObject [("a", RawStr "1"); ("b", RawObject)] = JObject o
        /\ ((forall k v, In (k, v) o -> exists n, BN_of_raw v = Ok n) ->
            exists bn,
              toBNMap (JObject [("a", RawStr "1"); ("b", RawObject)]) = Ok bn)
        /\ ((exists k v, In (k, v) o /\ BN_of_raw v = Throw BNAssertion) ->
            toBNMap (JObject [("a", RawStr "1"); ("b", RawObject)])
            = Throw BNAssertion)).
Proof.
  apply (valid_NewState_balances sampleOddBalances
           (JObject [("a", RawStr "1"); ("b", RawObject)])); reflexivity.
Defined.

(** Two messages that pass the validation and whose balances [toBNMap]
    refuses. *)
Example valid_NewState_refused :
  Legacy.isValidatorMsgValid sampleNullBalances = true
  /\ toBNMap JNull = Throw (AssertionError "raw map is a valid object")
  /\ Legacy.isValidatorMsgValid sampleOddBalances = true
  /\ toBNMap (JObject [("a", RawStr "1"); ("b", RawObject)]) = Throw BNAssertion.
Proof. repeat split. Qed.

Lemma existsb_eqb_In (uid : string) (l : list string) :
  existsb (String.eqb uid) l = true <-> In uid l.
Proof.
  rewrite existsb_exists. split.
  - intros (x & Hin & Heq). apply String.eqb_eq in Heq. now subst.
  - intros Hin. exists uid. split; [exact Hin | apply String.eqb_refl].
Qed.

(** What [every] returns: [true] when the callback is true of all elements;
    otherwise what it gives on the first element of which it is not true. *)
Lemma every_cases {A : Type} (f : A -> result bool) (l : list A) :
  match Legacy.every f l with
  | Ok true => forall x, In x l -> f x = Ok true
  | r =>
      exists l1 x l2,
        l = l1 ++ x :: l2
        /\ (forall y, In y l1 -> f y = Ok true)
        /\ f x = r
  end.
Proof.
  induction l as [|x l IH]; simpl; [tauto|].
  destruct (f x) as [[|]|e] eqn:Ex; cbn [bind].
  - destruct (Legacy.every f l) as [[|]|e] eqn:El.
    + intros y [<- | Hy]; auto.
    + destruct IH as (l1 & x' & l2 & -> & Hall & Hx').
      exists (x :: l1), x', l2. split; [reflexivity|]. split; [|exact Hx'].
      intros y [<- | Hy]; auto.
    + destruct IH as (l1 & x' & l2 & -> & Hall & Hx').
      exists (x :: l1), x', l2. split; [reflexivity|]. split; [|exact Hx'].
      intros y [<- | Hy]; auto.
  - exists [], x, l. split; [reflexivity|]. split; [|exact Ex].
    intros y [].
  - exists [], x, l. split; [reflexivity|]. split; [|exact Ex].
    intros y [].
Qed.

(** The elements that pass are the objects that pass; the elements on which
    the check throws are [undefined] and [null]. *)
Lemma isValidatorMsgValid_element_true (x : Legacy.Element) :
  Legacy.isValidatorMsgValid_element x = Ok true
  <-> exists m, x = JObject m /\ Legacy.isValidatorMsgValid m = true.
Proof.
  destruct x as [ | | b | n | s | m]; simpl; split;
    try discriminate; try (intros (m' & H & _); discriminate H).
  - intros [= H]. eauto.
  - intros (m' & [= <-] & ->). reflexivity.
Qed.

Lemma isValidatorMsgValid_element_throw (x : Legacy.Element) e :
  Legacy.isValidatorMsgValid_element x = Throw e
  <-> (x = JUndefined \/ x = JNull) /\ e = TypeError.
Proof.
  destruct x as [ | | b | n | s | m]; simpl; split;
    try discriminate; try (intros [[H | H] _]; discriminate H).
  - intros [= <-]. auto.
  - intros [_ ->]. reflexivity.
  - intros [= <-]. auto.
  - intros [_ ->]. reflexivity.
Qed.

(** When every insert succeeds the whole batch is stored. *)
Lemma stored_of_all inserted docs : forall i,
  forallb inserted (seq i (length docs)) = true ->
  Legacy.stored_of inserted i docs = docs.
Proof.
  induction docs as [|d docs IH]; intros i; simpl; [reflexivity|].
  intros H. apply andb_prop in H. destruct H as [Hi Hrest].
  rewrite Hi. now rewrite IH.
Qed.

(** What is stored is part of the batch, in its order. *)
Lemma stored_of_sub inserted docs : forall i d,
  In d (Legacy.stored_of inserted i docs) -> In d docs.
Proof.
  induction docs as [|d0 docs IH]; intros i d; simpl; [tauto|].
  destruct (inserted i).
  - intros [<- | H]; eauto.
  - eauto.
Qed.

(** X21: the earlier [postValidatorMessages] validates a batch as a whole
    but does not store it as a whole.  It answers 401 to a caller that is
    not one of the channel's validators, and 400 when the messages are not
    an array or an element does not pass [isValidatorMsgValid] while all
    elements before it do; it throws a TypeError when that element is
    [undefined] or [null]; in these cases the collection stays as it was.
    Otherwise every element is an object that passes, each has an insert of
    its own, and the collection grows by the documents whose insert
    succeeded, in order, under the channel and the caller: the handler
    answers with success exactly when every insert succeeded, the whole
    batch being stored then, and hands the error to [next] when one failed,
    the documents of the other inserts staying in the collection. *)
Theorem legacy_postValidatorMessages_batch
  (inserted : nat -> bool) (req : Legacy.Request)
  (col : list Legacy.StoredMessage) :
  match Legacy.postValidatorMessages inserted req col with
  | (Legacy.Sent (SendStatus code), col') =>
      col' = col
      /\ ((code = 401
           /\ ~ In (Legacy.session_uid req)
                  (Legacy.channel_validators (Legacy.req_channel req)))
          \/ (code = 400
              /\ In (Legacy.session_uid req)
                   (Legacy.channel_validators (Legacy.req_channel req))
              /\ (Legacy.body_messages req = None
                  \/ exists l1 x l2,
                       Legacy.body_messages req = Some (l1 ++ x :: l2)
                       /\ (forall y, In y l1 ->
                             Legacy.isValidatorMsgValid_element y = Ok true)
                       /\ Legacy.isValidatorMsgValid_element x = Ok false)))
  | (Legacy.Thrown e, col') =>
      col' = col
      /\ e = TypeError
      /\ In (Legacy.session_uid req)
           (Legacy.channel_validators (Legacy.req_channel req))
      /\ exists l1 x l2,
           Legacy.body_messages req = Some (l1 ++ x :: l2)
           /\ (forall y, In y l1 ->
                 Legacy.isValidatorMsgValid_element y = Ok true)
           /\ (x = JUndefined \/ x = JNull)
  | (reply, col') =>
      In (Legacy.session_uid req) (Legacy.channel_validators (Legacy.req_channel req))
      /\ exists l,
           Legacy.body_messages req = Some l
           /\ (forall x, In x l ->
                 exists m, x = JObject m /\ Legacy.isValidatorMsgValid m = true)
           /\ col'
              = col ++ Legacy.stored_of inserted 0 (map (Legacy.document req) l)
           /\ (reply = Legacy.Sent SendSuccess
               <-> forall i, (i < length l)%nat -> inserted i = true)
           /\ (reply = Legacy.Sent SendSuccess ->
               col' = col ++ map (Legacy.document req) l)
           /\ (reply <> Legacy.Sent SendSuccess -> reply = Legacy.InsertFailed)
  end.
Proof.
  unfold Legacy.postValidatorMessages.
  destruct (existsb _ (Legacy.channel_validators (Legacy.req_channel req))) eqn:Eauth;
    cbn [negb].
  2:{ split; [reflexivity|]. left. split; [reflexivity|].
      intros Hin. apply existsb_eqb_In in Hin. congruence. }
  apply existsb_eqb_In in Eauth.
  destruct (Legacy.body_messages req) as [l|].
  2:{ cbn [negb]. split; [reflexivity|]. right. auto. }
  pose proof (every_cases Legacy.isValidatorMsgValid_element l) as Hevery.
  destruct (Legacy.every Legacy.isValidatorMsgValid_element l) as [[|]|e];
    cbn [negb].
  - fold (Legacy.document req).
    assert (Hall : forallb inserted (seq 0 (length (map (Legacy.document req) l)))
                   = true
                   <-> forall i, (i < length l)%nat -> inserted i = true).
    { rewrite length_map, forallb_forall. split.
      - intros H i Hi. apply H. apply in_seq. lia.
      - intros H i Hi. apply in_seq in Hi. apply H. lia. }
    assert (Hvalid : forall x, In x l ->
              exists m, x = JObject m /\ Legacy.isValidatorMsgValid m = true).
    { intros x Hx. apply isValidatorMsgValid_element_true. now apply Hevery. }
    destruct (forallb inserted (seq 0 (length (map (Legacy.document req) l))))
      eqn:Eins.
    + split; [exact Eauth|]. exists l. split; [reflexivity|].
      split; [exact Hvalid|]. split; [reflexivity|]. split; [|split].
      * split; [intros _; now apply Hall | reflexivity].
      * intros _. now rewrite stored_of_all.
      * congruence.
    + split; [exact Eauth|]. exists l. split; [reflexivity|].
      split; [exact Hvalid|]. split; [reflexivity|]. split; [|split].
      * split; [discriminate|]. intros H. apply Hall in H. discriminate H.
      * discriminate.
      * reflexivity.
  - destruct Hevery as (l1 & x & l2 & -> & Hpre & Hx).
    split; [reflexivity|]. right. split; [reflexivity|]. split; [exact Eauth|].
    right. exists l1, x, l2. auto.
  - destruct Hevery as (l1 & x & l2 & -> & Hpre & Hx).
    apply isValidatorMsgValid_element_throw in Hx. destruct Hx as [Hx ->].
    split; [reflexivity|]. split; [reflexivity|]. split; [exact Eauth|].
    exists l1, x, l2. auto.
Qed.

(** A batch of two valid messages whose second insert fails: the error goes
    to [next], and the first message stays stored. *)
Example legacy_postValidatorMessages_partial :
  Legacy.postValidatorMessages (fun i => Nat.eqb i 0) sampleLegacyBatch []
  = (Legacy.InsertFailed,
     [ {| Legacy.channelId := "channel"; Legacy.from := "leader";
          Legacy.msg := JObject sampleRootedApprove |} ])
  /\ Legacy.postValidatorMessages (fun _ => true) sampleLegacyBatch []
     = (Legacy.Sent SendSuccess,
        [ {| Legacy.channelId := "channel"; Legacy.from := "leader";
             Legacy.msg := JObject sampleRootedApprove |};
          {| Legacy.channelId := "channel"; Legacy.from := "leader";
             Legacy.msg := JObject sampleNullBalances |} ]).
Proof. split; reflexivity. Qed.

(** A batch with an element that is a number is refused as a whole; with
    [null] before it, the handler throws. *)
Example legacy_postValidatorMessages_elements :
  Legacy.postValidatorMessages (fun _ => true)
    {| Legacy.req_channel := Legacy.req_channel sampleLegacyBatch;
       Legacy.session_uid := "leader";
       Legacy.body_messages := Some [JObject sampleRootedApprove; JNumber 5] |} []
  = (Legacy.Sent (SendStatus 400), [])
  /\ Legacy.postValidatorMessages (fun _ => true)
       {| Legacy.req_channel := Legacy.req_channel sampleLegacyBatch;
          Legacy.session_uid := "leader";
          Legacy.body_messages := Some [JNull; JNumber 5] |} []
     = (Legacy.Thrown TypeError, []).
Proof. split; reflexivity. Qed.

(** X22: a message that carries the state root [getStateRootHash] computes
    can pass [isValidatorMsgValid] only when the adapter's signable root has
    32 bytes; when it has, an ApproveState with that state root and a string
    signature passes. *)
Theorem state_root_fits_validation
  (m : Message) (channel : Channel) (balances : Obj.t BN) (adapter : Adapter) :
  Obj.get "stateRoot" m = Some (JString (getStateRootHash channel balances adapter)) ->
  (Legacy.isValidatorMsgValid m = true ->
   length (signableStateRoot channel balances adapter) = 32%nat)
  /\ (length (signableStateRoot channel balances adapter) = 32%nat ->
      (exists signature, Obj.get "signature" m = Some (JString signature)) ->
      Obj.get "type" m = Some (JString "ApproveState") ->
      Legacy.isValidatorMsgValid m = true).
Proof.
  intros Hroot.
  assert (Hlen : String.length (getStateRootHash channel balances adapter)
                 = (2 * length (signableStateRoot channel balances adapter))%nat)
    by apply Buffer_toString_hex_length.
  split.
  - intros Hvalid. apply isValidatorMsgValid_spec in Hvalid.
    destruct Hvalid as ((root & Hr & H64) & _). rewrite Hroot in Hr.
    injection Hr as <-. lia.
  - intros H32 Hsig Htype. apply isValidatorMsgValid_spec.
    split; [|split; [exact Hsig | now right]].
    eexists. split; [exact Hroot|]. lia.
Qed.

Lemma state_root_fits_validation_witness :
  Legacy.isValidatorMsgValid sampleRootedApprove = true.
Proof.
  apply (proj2 (state_root_fits_validation sampleRootedApprove
                  channel_1000_10_5 [("a", 2); ("b", 3)] sampleAdapter32 eq_refl)).
  - reflexivity.
  - exists "sig". reflexivity.
  - reflexivity.
Defined.
